(** * Salt Lake County listing crawler: a model of [scripts/salt_lake_county.py]

    The development follows the script top to bottom: the text helpers the
    script borrows from Python ([str.lower], [str.split], [str.strip],
    [str.replace], [re.search]), then [check_memory], [is_valid_url],
    [safe_text], the two extractors and [router_handler], and last the crawl
    itself: handlers that take turns at their [await] points over the shared
    [visited_mls] set, the request queue and the CSV file.

    Conventions of the model.
    - A Python [str] is a [string]; a character stands for the code point of
      the same number, so the text covered is the one made of code points
      below 256.  On that range [lower_char], [isspace] and [isdigit] agree
      with Python's [str.lower], [str.isspace] and the regular-expression
      classes [\s] and [\d].
    - The patterns are read on that text.  The class [[^0-9]] is written
      as the script has it ([Re.not_digit]), apart from [\d]; a letter of a
      pattern under [re.I] matches itself and its other case ([Re.char_i]).
      What is said of a matched word is said with the pattern that matched
      it.
    - [visited_mls] is a [gset string], [user_data] and the [data] dictionary
      of a listing are [gmap string string].
    - What the browser shows is an input: a [Page] gives the answers of
      [query_selector], [wait_for_selector], [content] and of the element
      methods.  A call the script wraps in [try] may answer [Raises]; the
      browser calls it leaves unguarded are taken to answer.
    - [Request.from_url] checks the URL it is given and raises on one that
      is not absolute; in the pagination block no [try] stands around it.
      What a handler hands to [context.add_requests] reaches the queue when
      the handler returns, and not at all when it raises or is cut off. *)

From Stdlib Require Import Ascii String ZArith QArith Lia.
From stdpp Require Import base strings gmap list.

Close Scope Q_scope.
Local Open Scope Z_scope.
Local Open Scope nat_scope.
Local Open Scope stdpp_scope.

#[local] Arguments String.append !_ _ / : simpl nomatch.

(** ** Text *)

Module Str.

(** [s.startswith(p)]. *)
Fixpoint startswith (s p : string) {struct p} : bool :=
  match p, s with
  | "", _ => true
  | String a p', String b s' => if decide (a = b) then startswith s' p' else false
  | String _ _, "" => false
  end.

(** [sub in s]. *)
Fixpoint contains (sub s : string) : bool :=
  startswith s sub ||
  match s with
  | "" => false
  | String _ s' => contains sub s'
  end.

(** [c in chars] for a one-character [c]. *)
Fixpoint has_char (chars : string) (c : ascii) : bool :=
  match chars with
  | "" => false
  | String a chars' => if decide (a = c) then true else has_char chars' c
  end.

(** [str.lower] on one code point below 256: A-Z and the capital
    Latin-1 letters (all of 192..222 but the multiplication sign 215)
    move up by 32, everything else stays. *)
Definition lower_char (c : ascii) : ascii :=
  let n := nat_of_ascii c in
  if ((65 <=? n) && (n <=? 90)) || ((192 <=? n) && (n <=? 222) && negb (n =? 215))
  then ascii_of_nat (n + 32)
  else c.

Fixpoint lower (s : string) : string :=
  match s with
  | "" => ""
  | String c s' => String (lower_char c) (lower s')
  end.

(** [str.isspace] on one code point below 256. *)
Definition isspace (c : ascii) : bool :=
  let n := nat_of_ascii c in
  ((9 <=? n) && (n <=? 13)) || ((28 <=? n) && (n <=? 32)) || (n =? 133) || (n =? 160).

(** the class [\d] (and [0-9]) on one code point below 256. *)
Definition isdigit (c : ascii) : bool :=
  let n := nat_of_ascii c in (48 <=? n) && (n <=? 57).

(** [s.lstrip(...)], [s.rstrip(...)], [s.strip(...)], the characters to
    drop given as a test. *)
Fixpoint lstrip (drop : ascii → bool) (s : string) : string :=
  match s with
  | "" => ""
  | String c s' => if drop c then lstrip drop s' else s
  end.

Fixpoint rstrip (drop : ascii → bool) (s : string) : string :=
  match s with
  | "" => ""
  | String c s' =>
      match rstrip drop s' with
      | "" => if drop c then "" else String c ""
      | r => String c r
      end
  end.

Definition strip_by (drop : ascii → bool) (s : string) : string :=
  rstrip drop (lstrip drop s).

(** [s.strip()] and [s.strip(chars)]. *)
Definition strip (s : string) : string := strip_by isspace s.
Definition strip_chars (chars s : string) : string := strip_by (has_char chars) s.

(** [s.split(sep)] for a non-empty [sep]: the separators are found from
    the left and do not overlap.  [skip] counts the characters of a
    separator just found that are still to be passed over; [cur] is the
    piece being read, last character first. *)
Fixpoint split_go (sep : string) (skip : nat) (cur : string) (s : string) : list string :=
  match s with
  | "" => [String.rev cur]
  | String c s' =>
      match skip with
      | S k => split_go sep k cur s'
      | O =>
          if startswith s sep
          then String.rev cur :: split_go sep (String.length sep - 1) "" s'
          else split_go sep 0 (String c cur) s'
      end
  end.

Definition split (sep s : string) : list string := split_go sep 0 "" s.

(** [s.replace(old, new)] for a non-empty [old], with the same scan. *)
Fixpoint replace_go (old new : string) (skip : nat) (s : string) : string :=
  match s with
  | "" => ""
  | String c s' =>
      match skip with
      | S k => replace_go old new k s'
      | O =>
          if startswith s old
          then new +:+ replace_go old new (String.length old - 1) s'
          else String c (replace_go old new 0 s')
      end
  end.

Definition replace (old new s : string) : string := replace_go old new 0 s.

(** [re.sub(r"\s+", " ", s)]: every maximal run of white space becomes
    one blank.  [in_run] tells that the run's blank is already written. *)
Fixpoint collapse_go (in_run : bool) (s : string) : string :=
  match s with
  | "" => ""
  | String c s' =>
      if isspace c
      then if in_run then collapse_go true s' else String " " (collapse_go true s')
      else String c (collapse_go false s')
  end.

Definition collapse_spaces (s : string) : string := collapse_go false s.

(** Indexing a list the Python way, for the two uses the script makes:
    [l[-1]] and [l[0]] of a [split], which is never empty. *)
Definition last_item (l : list string) : string := default "" (last l).
Definition first_item (l : list string) : string := default "" (head l).

(** what is left of [s] once every occurrence of [c] is taken out. *)
Fixpoint without_char (c : ascii) (s : string) : string :=
  match s with
  | "" => ""
  | String a s' => if decide (a = c) then without_char c s' else String a (without_char c s')
  end.

End Str.

(** ** Constants of the script *)

Definition MAX_MEMORY_GB : Q := 7.

Definition CSV_HEADERS : list string :=
  [ "mls"; "price"; "address"; "beds"; "baths"; "sqft";
    "year_built"; "lot_size"; "garage"; "agent"; "city" ].

(** ** [is_valid_url] *)

Definition BAD_PREFIXES : list string := [ "javascript:"; "mailto:"; "tel:"; "#" ].

Definition is_valid_url (url : string) : bool :=
  if decide (url = "") then false
  else negb (existsb (λ p, Str.startswith (Str.lower url) p) BAD_PREFIXES).

(** ** Regular expressions

    The patterns of the script, as Python's [re] reads them: a backtracking
    matcher that tries the left branch of [|] first, lets [*] take as much
    as it can before giving back, and remembers the text of the one capture
    group. *)

Module Re.

Inductive regex : Type :=
| Chr (f : ascii → bool)      (* one character of a class *)
| Eps                         (* the empty pattern *)
| Seq (r1 r2 : regex)         (* r1 r2 *)
| Alt (r1 r2 : regex)         (* r1|r2 *)
| Star (r : regex)            (* r* *)
| Group (r : regex).          (* (r), group 1 *)

Notation "r1 >> r2" := (Seq r1 r2) (at level 60, right associativity).

Definition Plus (r : regex) : regex := r >> Star r.
Definition Opt (r : regex) : regex := Alt r Eps.

Fixpoint Times (n : nat) (r : regex) : regex :=
  match n with
  | O => Eps
  | S n' => r >> Times n' r
  end.

Definition char (c : ascii) : regex := Chr (λ a, bool_decide (a = c)).

(** one pattern character under [re.I]: among the code points below 256 a
    letter a-z of a pattern matches itself and its capital, and nothing
    else.  (Python lets s, i and k match one more character each, U+017F,
    U+0131 and U+212A; they lie outside the text modelled here.) *)
Definition char_i (c : ascii) : regex :=
  Chr (λ a, bool_decide (Str.lower_char a = Str.lower_char c)).

(** a literal, and a literal under [re.I]. *)
Fixpoint lit (s : string) : regex :=
  match s with
  | "" => Eps
  | String c s' => char c >> lit s'
  end.

Fixpoint lit_i (s : string) : regex :=
  match s with
  | "" => Eps
  | String c s' => char_i c >> lit_i s'
  end.

(** the text [s] loses when it is read down to its suffix [rest]. *)
Fixpoint taken (s : string) (n : nat) : string :=
  match n, s with
  | S n', String c s' => String c (taken s' n')
  | _, _ => ""
  end.

Definition consumed (s rest : string) : string :=
  taken s (String.length s - String.length rest).

(** Steps the matcher may need on a text of [n] characters. *)
Fixpoint need (r : regex) (n : nat) : nat :=
  match r with
  | Chr _ | Eps => 1
  | Seq r1 r2 | Alt r1 r2 => S (Nat.max (need r1 n) (need r2 n))
  | Star r1 => S n + need r1 n
  | Group r1 => S (need r1 n)
  end.

Section Matcher.
Context {R : Type}.

(** [run fuel r s g k]: match [r] at the head of [s], group 1 being [g]
    so far, and hand the rest of the text and the group to [k]; when
    [k] refuses, fall back to the next way of matching [r]. *)
Fixpoint run (fuel : nat) (r : regex) (s : string) (g : option string)
    (k : string → option string → option R) : option R :=
  match fuel with
  | O => None
  | S f =>
      match r with
      | Chr p =>
          match s with
          | String c s' => if p c then k s' g else None
          | "" => None
          end
      | Eps => k s g
      | Seq r1 r2 => run f r1 s g (λ s1 g1, run f r2 s1 g1 k)
      | Alt r1 r2 =>
          match run f r1 s g k with
          | Some x => Some x
          | None => run f r2 s g k
          end
      | Star r1 =>
          match run f r1 s g (λ s1 g1,
                  if String.length s1 <? String.length s
                  then run f (Star r1) s1 g1 k else None) with
          | Some x => Some x
          | None => k s g
          end
      | Group r1 => run f r1 s g (λ s1 _, k s1 (Some (consumed s s1)))
      end
  end.
End Matcher.

(** A match that starts at the head of [s]: its group 1. *)
Definition match_here (r : regex) (s : string) : option (option string) :=
  run (need r (String.length s)) r s None (λ _ g, Some g).

(** [re.search(r, s)]: the leftmost start that matches. *)
Fixpoint search (r : regex) (s : string) : option (option string) :=
  match match_here r s with
  | Some g => Some g
  | None =>
      match s with
      | "" => None
      | String _ s' => search r s'
      end
  end.

(** [m.group(1)]; group 1 lies on every path of the patterns below. *)
Definition group1 (m : option string) : string := default "" m.

(** What a pattern matches, without reference to the matcher. *)
Inductive matches : regex → string → Prop :=
| matches_chr p c : p c = true → matches (Chr p) (String c "")
| matches_eps : matches Eps ""
| matches_seq r1 r2 a b : matches r1 a → matches r2 b → matches (r1 >> r2) (a +:+ b)
| matches_alt_l r1 r2 a : matches r1 a → matches (Alt r1 r2) a
| matches_alt_r r1 r2 a : matches r2 a → matches (Alt r1 r2) a
| matches_star_nil r : matches (Star r) ""
| matches_star_cons r a b :
    a ≠ "" → matches r a → matches (Star r) b → matches (Star r) (a +:+ b)
| matches_group r a : matches r a → matches (Group r) a.

(** the class [[^0-9]]: any character but the ten digits 0 to 9 *)
Definition not_digit (c : ascii) : bool :=
  let n := nat_of_ascii c in negb ((48 <=? n) && (n <=? 57)).

(** [utahrealestate\.com/([^/]+)-homes] *)
Definition CITY_RE : regex :=
  lit "utahrealestate.com/" >> Group (Plus (Chr (λ c, negb (bool_decide (c = "/"%char)))))
    >> lit "-homes".

(** [Year\s*Built[^0-9]*(\d{4})], re.I *)
Definition YEAR_RE : regex :=
  lit_i "Year" >> Star (Chr Str.isspace) >> lit_i "Built" >> Star (Chr not_digit)
    >> Group (Times 4 (Chr Str.isdigit)).

(** [sq\.? ft] and [ac|acre|sq\.? ft], re.I *)
Definition SQ_FT : regex := lit_i "sq" >> Opt (char ".") >> lit_i " ft".
Definition UNITS : regex := Alt (lit_i "ac") (Alt (lit_i "acre") SQ_FT).

(** [Lot[^0-9]*([\d.,]+\s*(?:ac|acre|sq\.? ft))], re.I *)
Definition LOT_RE : regex :=
  lit_i "Lot" >> Star (Chr not_digit)
    >> Group (Plus (Chr (λ c, Str.isdigit c || Str.has_char ".," c))
              >> Star (Chr Str.isspace)
              >> UNITS).

(** [Garage[^0-9]*(\d+)], re.I *)
Definition GARAGE_RE : regex :=
  lit_i "Garage" >> Star (Chr not_digit) >> Group (Plus (Chr Str.isdigit)).

End Re.

(** ** [check_memory]

    [rss] is the resident set size in bytes that [psutil] reports.  The
    script divides and compares in binary floating point; the model does so
    in exact rationals.  For a byte count below 2^53 the two agree: dividing
    by 2^30 is exact, and the rounded product [7.0 * 0.9] lies, like 6.3,
    strictly between 6764573491 / 2^30 and 6764573492 / 2^30. *)

Inductive exn : Type :=
| MemoryError        (* raised by [check_memory] *)
| ValidationError.   (* raised by [Request.from_url] on a URL it turns down *)

Definition check_memory (rss : Z) : exn + Q :=
  let mem_gb := (inject_Z rss / inject_Z (1024 ^ 3))%Q in
  if Qlt_le_dec (MAX_MEMORY_GB * 0.9)%Q mem_gb then inl MemoryError else inr mem_gb.

(** ** What the browser and the crawler hand to the script *)

Inductive reply (A : Type) : Type :=
| Reply (a : A)
| Raises.
Arguments Reply {A} a.
Arguments Raises {A}.

(** An element found by [safe_text]: its [text_content()]. *)
Record Element : Type := { text_content : reply (option string) }.

(** One turn of the card loop as the outside answers it: the card's
    [get_attribute("listno")], and whether [context.add_requests] takes the
    request made for the card (the loop's [except Exception] covers both). *)
Record Card : Type := {
  listno : reply (option string);
  add_requests_ok : bool
}.

Record Page : Type := {
  (** [wait_for_selector(".property___card", timeout=15000)] returned *)
  cards_appear : bool;
  (** [query_selector_all(".property___card")] *)
  cards : list Card;
  (** the next-page anchor, if any, with its [get_attribute("href")] *)
  next_btn : option (option string);
  (** the library's answer about the URL of the next-page request, for a
      URL on which the model does not settle it (see [from_url]) *)
  next_accepted : bool;
  (** [query_selector(selector)] as [safe_text] calls it *)
  query_selector : string → reply (option Element);
  (** [content()] *)
  content : string
}.

Record Request : Type := {
  url : string;
  label : option string;
  user_data : gmap string string;
  retry_count : nat
}.

(** A request that has not been tried yet. *)
Definition new_request (u : string) (l : option string) (ud : gmap string string) : Request :=
  {| url := u; label := l; user_data := ud; retry_count := 0 |}.

(** The check of [Request.from_url]: the URL has to be an absolute http(s)
    URL.  A text that begins with the site's base, as the script builds
    it, is one, whatever follows the base; a text without ":" has no
    scheme and is none.  For any other text the answer is the library's,
    [accepted]. *)
Definition url_accepted (accepted : bool) (u : string) : bool :=
  if Str.startswith u "https://www.utahrealestate.com/" then true
  else if Str.contains ":" u then accepted
  else false.

(** [Request.from_url(url, label=..., user_data=...)]: the request, or the
    [ValidationError] of a URL that is turned down. *)
Definition from_url (accepted : bool) (u : string) (l : option string)
    (ud : gmap string string) : reply Request :=
  if url_accepted accepted u then Reply (new_request u l ud) else Raises.

(** ** CSV file: the rows under the header *)

Definition csv_row (data : gmap string string) : list string :=
  (λ k, default "" (data !! k)) <$> CSV_HEADERS.

Definition append_to_csv (data : gmap string string) (rows : list (list string)) : list (list string) :=
  rows ++ [csv_row data].

(** the [mls] column of a row *)
Definition row_mls (row : list string) : string := default "" (head row).

(** ** [safe_text] *)

Definition safe_text (page : Page) (selector : string) : string :=
  match query_selector page selector with
  | Reply (Some el) =>
      match text_content el with
      | Reply txt => Str.strip (default "" txt)
      | Raises => ""
      end
  | Reply None => ""
  | Raises => ""
  end.

(** ** Search results *)

Definition search_city (u : string) : string :=
  match Re.search Re.CITY_RE u with
  | Some m => Re.group1 m
  | None => "unknown"
  end.

Definition detail_url (mls : string) : string :=
  "https://www.utahrealestate.com/listing/" +:+ mls.

(** The body of [for card in cards]: the set after the turn and the
    requests handed to [context.add_requests].  [Request.from_url] and
    [add_requests] stand inside the loop's [try]. *)
Definition claim_card (city : string) (card : Card) (visited : gset string)
    : gset string * list Request :=
  match listno card with
  | Reply (Some mls) =>
      if bool_decide (mls = "") || bool_decide (mls ∈ visited) then (visited, [])
      else
        let visited' := visited ∪ {[ mls ]} in
        match from_url (add_requests_ok card) (detail_url mls) (Some "detail")
                {[ "city" := city ]} with
        | Reply r => if add_requests_ok card then (visited', [r]) else (visited', [])
        | Raises => (visited', [])
        end
  | Reply None => (visited, [])
  | Raises => (visited, [])
  end.

(** The pagination block: the requests it hands to [context.add_requests],
    or [Raises] when [Request.from_url] turns the URL down, which no [try]
    catches. *)
Definition pagination (city : string) (page : Page) : reply (list Request) :=
  match next_btn page with
  | Some (Some href) =>
      if negb (bool_decide (href = "")) && is_valid_url href
      then
        let href' :=
          if Str.startswith href "/" then "https://www.utahrealestate.com" +:+ href else href in
        match from_url (next_accepted page) href' None {[ "city" := city ]} with
        | Reply r => Reply [r]
        | Raises => Raises
        end
      else Reply []
  | Some None => Reply []
  | None => Reply []
  end.

(** The requests of the pagination block: none when it raises. *)
Definition next_page (city : string) (page : Page) : list Request :=
  match pagination city page with
  | Reply out => out
  | Raises => []
  end.

Definition pagination_raises (page : Page) : bool :=
  match pagination "" page with
  | Reply _ => false
  | Raises => true
  end.

Definition claim_cards (city : string) (cs : list Card) (visited : gset string)
    : gset string * list Request :=
  foldl (λ acc card, let r := claim_card city card acc.1 in (r.1, acc.2 ++ r.2)) (visited, []) cs.

(** [extract_search_results] run from its start until it returns or
    raises: the set it leaves and the requests its [context.add_requests]
    calls were handed, in order.  When the pagination block raises
    ([extract_search_results_raises]) its [add_requests] is not reached,
    and these are the requests of the cards. *)
Definition extract_search_results (request : Request) (page : Page) (visited : gset string)
    : gset string * list Request :=
  let city := search_city (url request) in
  if cards_appear page
  then
    let r := claim_cards city (cards page) visited in
    (r.1, r.2 ++ next_page city page)
  else (visited, []).

(** Whether that run ends in the exception of the pagination block. *)
Definition extract_search_results_raises (page : Page) : bool :=
  cards_appear page && pagination_raises page.

(** ** Detail page *)

Definition url_mls (u : string) : string :=
  Str.first_item (Str.split "/" (Str.last_item (Str.split "/listing/" u))).

Definition search_or_empty (r : Re.regex) (html : string) : string :=
  match Re.search r html with
  | Some m => Re.group1 m
  | None => ""
  end.

(** [extract_detail] up to its [data] dictionary. *)
Definition extract_detail (request : Request) (page : Page) : gmap string string :=
  let city := default "unknown" (user_data request !! "city") in
  let mls := url_mls (url request) in
  let street := safe_text page ".prop___overview h2" in
  let city_state := safe_text page "#location-data" in
  let address := Str.strip_chars " ," (street +:+ ", " +:+ city_state) in
  let price := safe_text page ".prop-details-overview li span" in
  let beds := Str.replace "," "" (safe_text page ".prop-details-overview li:nth-of-type(2) span") in
  let baths := Str.replace "," "" (safe_text page ".prop-details-overview li:nth-of-type(3) span") in
  let sqft := Str.replace "," "" (safe_text page ".prop-details-overview li:nth-of-type(4) span") in
  let html := content page in
  let year_built := search_or_empty Re.YEAR_RE html in
  let lot_size := search_or_empty Re.LOT_RE html in
  let garage := search_or_empty Re.GARAGE_RE html in
  let agent := safe_text page ".agent-name, [class*='agent']" in
  let agent := if bool_decide (agent = "") then "" else Str.strip (Str.collapse_spaces agent) in
  list_to_map
    [ ("mls", mls); ("price", price); ("address", address); ("beds", beds);
      ("baths", baths); ("sqft", sqft); ("year_built", year_built);
      ("lot_size", lot_size); ("garage", garage); ("agent", agent); ("city", city) ].

(** ** [router_handler] *)

(** ["/listing/" in url or context.request.label == "detail"] *)
Definition is_detail (request : Request) : bool :=
  Str.contains "/listing/" (url request) || bool_decide (label request = Some "detail").

(** The handler run without a break on one request: either the exception
    that leaves it, or the set, the requests handed to
    [context.add_requests] and the CSV rows after it.  When
    [extract_search_results] raises, the identifiers it has put into the
    set before stay there: the set is then the one that
    [extract_search_results] gives. *)
Definition router_handler (rss : Z) (request : Request) (page : Page)
    (visited : gset string) (rows : list (list string))
    : exn + (gset string * list Request * list (list string)) :=
  match check_memory rss with
  | inl e => inl e
  | inr _ =>
      if is_detail request
      then inr (visited, [], append_to_csv (extract_detail request page) rows)
      else if extract_search_results_raises page then inl ValidationError
      else
        let r := extract_search_results request page visited in
        inr (r.1, r.2, rows)
  end.

(** ** The crawl

    [main] builds a crawler with [max_request_retries=2] and a handler
    time-out, and runs it on the start URLs.  The crawler keeps several
    handlers going; they take turns where they [await].  A search handler
    awaits inside its card loop, so the cards of two pages may be claimed
    in any interleaving, while the test [mls in visited_mls] and the
    [add] that follows are one turn.  What a handler hands to
    [context.add_requests] is held back by the crawler and reaches the
    queue when the handler returns; it is dropped when the handler raises
    or is cut off.  A request whose handler raises or is cut off goes back
    to the queue until it has been retried [MAX_REQUEST_RETRIES] times,
    then it is dropped.  [visited_mls] is the script's own and keeps what
    a failed handler has put into it. *)

Definition MAX_REQUEST_RETRIES : nat := 2.

Definition cities : list string :=
  [ "draper"; "holladay"; "midvale"; "millcreek"; "cottonwood-heights";
    "murray"; "salt-lake-city"; "sandy"; "south-jordan"; "south-salt-lake";
    "sugarhouse"; "west-jordan"; "west-valley" ].

Definition start_urls : list string :=
  (λ c, "https://www.utahrealestate.com/" +:+ c +:+ "-homes") <$> cities.

(** [extract_search_results] resting in its card loop. *)
Record SearchRun : Type := {
  sr_request : Request;
  sr_city : string;
  sr_cards : list Card;      (* cards still to come *)
  sr_page : Page;
  sr_added : list Request    (* handed to [add_requests] so far, held back *)
}.

Record Crawl : Type := {
  visited_mls : gset string;
  queue : list Request;            (* requests waiting *)
  running : list SearchRun;        (* search handlers at an await *)
  csv_rows : list (list string);   (* the CSV file *)
  added : list Request             (* every request that reached the queue from
                                      [add_requests], oldest first *)
}.

Definition main_init : Crawl :=
  {| visited_mls := ∅;
     queue := (λ u, new_request u None ∅) <$> start_urls;
     running := [];
     csv_rows := [];
     added := [] |}.

(** The crawler's answer to a failed handler. *)
Definition retry (request : Request) : list Request :=
  if retry_count request <? MAX_REQUEST_RETRIES
  then [ {| url := url request; label := label request; user_data := user_data request;
            retry_count := S (retry_count request) |} ]
  else [].

Inductive Move : Type :=
| Fetch (i : nat) (rss : Z) (page : Page)
    (* request [i] of the queue is loaded and [router_handler] starts on it *)
| LoadFails (i : nat)
    (* request [i] fails before its handler has done anything *)
| Resume (j : nat)
    (* search handler [j] goes on to its next await: one card, or, the
       cards done, the pagination block and the end *)
| CutOff (j : nat).
    (* search handler [j] is cancelled where it waits *)

Definition step (m : Move) (c : Crawl) : option Crawl :=
  match m with
  | Fetch i rss page =>
      request ← queue c !! i;
      let rest := delete i (queue c) in
      match check_memory rss with
      | inl _ =>
          Some {| visited_mls := visited_mls c; queue := rest ++ retry request;
                  running := running c; csv_rows := csv_rows c; added := added c |}
      | inr _ =>
          if is_detail request
          then
            Some {| visited_mls := visited_mls c; queue := rest; running := running c;
                    csv_rows := append_to_csv (extract_detail request page) (csv_rows c);
                    added := added c |}
          else if cards_appear page
          then
            let h := {| sr_request := request; sr_city := search_city (url request);
                        sr_cards := cards page; sr_page := page; sr_added := [] |} in
            Some {| visited_mls := visited_mls c; queue := rest; running := running c ++ [h];
                    csv_rows := csv_rows c; added := added c |}
          else
            Some {| visited_mls := visited_mls c; queue := rest; running := running c;
                    csv_rows := csv_rows c; added := added c |}
      end
  | LoadFails i =>
      request ← queue c !! i;
      Some {| visited_mls := visited_mls c; queue := delete i (queue c) ++ retry request;
              running := running c; csv_rows := csv_rows c; added := added c |}
  | Resume j =>
      h ← running c !! j;
      match sr_cards h with
      | card :: rest =>
          let r := claim_card (sr_city h) card (visited_mls c) in
          let h' := {| sr_request := sr_request h; sr_city := sr_city h;
                       sr_cards := rest; sr_page := sr_page h;
                       sr_added := sr_added h ++ r.2 |} in
          Some {| visited_mls := r.1; queue := queue c;
                  running := <[ j := h' ]> (running c);
                  csv_rows := csv_rows c; added := added c |}
      | [] =>
          match pagination (sr_city h) (sr_page h) with
          | Reply out =>
              Some {| visited_mls := visited_mls c; queue := queue c ++ sr_added h ++ out;
                      running := delete j (running c);
                      csv_rows := csv_rows c; added := added c ++ sr_added h ++ out |}
          | Raises =>
              Some {| visited_mls := visited_mls c; queue := queue c ++ retry (sr_request h);
                      running := delete j (running c);
                      csv_rows := csv_rows c; added := added c |}
          end
      end
  | CutOff j =>
      h ← running c !! j;
      Some {| visited_mls := visited_mls c; queue := queue c ++ retry (sr_request h);
              running := delete j (running c); csv_rows := csv_rows c; added := added c |}
  end.

Fixpoint run (moves : list Move) (c : Crawl) : option Crawl :=
  match moves with
  | [] => Some c
  | m :: moves' => c' ← step m c; run moves' c'
  end.

(** The Detail request made for the identifier [mls]. *)
Definition detail_task_for (mls : string) (r : Request) : bool :=
  bool_decide (label r = Some "detail") && bool_decide (url r = detail_url mls).

(** A page whose cards carry identifiers free of ["/"] and whose next-page
    link, once resolved, does not point under ["/listing/"]. *)
Definition plain_page (page : Page) : bool :=
  forallb (λ card, match listno card with
                   | Reply (Some mls) => negb (Str.has_char mls "/")
                   | _ => true
                   end) (cards page)
  && forallb (λ r, negb (is_detail r)) (next_page "" page).

Definition plain_move (m : Move) : bool :=
  match m with
  | Fetch _ _ page => plain_page page
  | _ => true
  end.

(** The Search requests among those a handler adds: the ones the router
    will not send to [extract_detail]. *)
Definition searches (l : list Request) : list Request :=
  filter (λ r, is_detail r = false) l.

(** ** Pages to try the script on *)

Definition element (txt : string) : Element := {| text_content := Reply (Some txt) |}.

(** A detail page that shows the given texts under the given selectors,
    nothing under any other, and has the given source. *)
Definition detail_page (shown : list (string * string)) (html : string) : Page :=
  {| cards_appear := false; cards := []; next_btn := None; next_accepted := true;
     query_selector := λ sel, Reply (element <$> (list_to_map shown : gmap string string) !! sel);
     content := html |}.

(** A results page with one card per identifier, each request taken. *)
Definition results_page (appear : bool) (ids : list string) (next : option (option string)) : Page :=
  {| cards_appear := appear;
     cards := (λ mls, {| listno := Reply (Some mls); add_requests_ok := true |}) <$> ids;
     next_btn := next;
     next_accepted := true;
     query_selector := λ _, Reply None;
     content := "" |}.

(** An element [safe_text] gets no text from. *)
Definition missing (page : Page) (selector : string) : Prop :=
  match query_selector page selector with
  | Reply (Some el) => text_content el = Raises ∨ text_content el = Reply None
  | Reply None => True
  | Raises => True
  end.

(** ** Words for the properties *)

(** The strings [is_valid_url] turns down, said without the code: the empty
    one, and those whose lower-case form begins with a refused prefix. *)
Definition refused (u : string) : Prop :=
  u = "" ∨ ∃ p rest, p ∈ BAD_PREFIXES ∧ Str.lower u = p +:+ rest.

(** A URL with [utahrealestate.com/<slug>-homes] in it, the slug one or
    more characters other than ["/"]. *)
Definition has_city_slug (u : string) : Prop :=
  ∃ pre slug post,
    u = pre +:+ "utahrealestate.com/" +:+ slug +:+ "-homes" +:+ post
    ∧ slug ≠ "" ∧ Str.has_char slug "/" = false.

(** The Detail requests made for [mls] among [l]. *)
Definition tasks_for (mls : string) (l : list Request) : list Request :=
  filter (λ r, detail_task_for mls r = true) l.

(** The URLs of the requests of [q] that the router sends to
    [extract_detail]. *)
Definition detail_urls (q : list Request) : list string :=
  url <$> filter (λ r, is_detail r = true) q.

(** The [mls] column of the CSV file. *)
Definition written (c : Crawl) : list string := row_mls <$> csv_rows c.

(** The requests held back for the handlers that are running. *)
Fixpoint held_by (hs : list SearchRun) : list Request :=
  match hs with
  | [] => []
  | h :: hs' => sr_added h ++ held_by hs'
  end.

Definition held (c : Crawl) : list Request := held_by (running c).

Definition plain_card (card : Card) : bool :=
  match listno card with
  | Reply (Some mls) => negb (Str.has_char mls "/")
  | _ => true
  end.

(** A search handler at rest that came from a Search request and a plain
    page. *)
Definition plain_run (h : SearchRun) : bool :=
  negb (is_detail (sr_request h))
  && forallb plain_card (sr_cards h)
  && forallb (λ r, negb (is_detail r)) (next_page "" (sr_page h)).

(** Every listed URL is the detail URL of a claimed identifier free of
    ["/"], and none is listed twice. *)
Definition one_each (visited : gset string) (urls : list string) : Prop :=
  NoDup urls
  ∧ ∀ u, u ∈ urls → ∃ mls, u = detail_url mls ∧ mls ∈ visited ∧ Str.has_char mls "/" = false.

(** ** Crawls to try *)

(** The state a list of moves leads to from the start of [main]. *)
Definition after (moves : list Move) : Crawl := default main_init (run moves main_init).

Definition quiet : Z := 0.

(** The first city page shows the same listing on two cards and a next
    link; all of it is handled, then the listing's page. *)
Definition plain_moves : list Move :=
  [ Fetch 0 quiet (results_page true ["2084421"; "2084421"] (Some (Some "/draper-homes?page=2")));
    Resume 0; Resume 0; Resume 0;
    Fetch 12 quiet (detail_page [] "") ].




(** A card whose identifier is "/". *)
Definition empty_mls_moves : list Move :=
  [ Fetch 0 quiet (results_page true ["/"] None); Resume 0; Resume 0;
    Fetch 12 quiet (detail_page [] "") ].

(** The resident set is 6764573492 bytes when the first request is
    handled, and small afterwards. *)
Definition over_limit : Z := 6764573492.

Definition memory_moves : list Move :=
  [ Fetch 0 over_limit (results_page true [] None);
    Fetch 0 quiet (results_page true ["2084421"] None); Resume 0; Resume 0;
    Fetch 12 quiet (detail_page [] "") ].




(** Two listings, both handled to the end. *)
Definition two_listings_moves : list Move :=
  [ Fetch 0 quiet (results_page true ["2084421"; "7"] None); Resume 0; Resume 0; Resume 0;
    Fetch 12 quiet (detail_page [] "") ].


(** The state of a crawl fed with plain pages only. *)
Definition sink_ok (c : Crawl) : Prop :=
  one_each (visited_mls c)
    (detail_urls (queue c) ++ detail_urls (held c) ++ (detail_url <$> written c))
  ∧ Forall (λ h, plain_run h = true) (running c).

(** splits [s = s1 +:+ s2 ∧ matches r s1 ∧ k s2 g = Some x], leaving the match *)
Ltac split_match := split; [done|]; split; [|done].

(** reads the fields of a state written out in full *)
Ltac fields := cbn [visited_mls queue running csv_rows added].

(** ** Words for the patterns *)

(** What a pattern matches together with what it leaves in group 1, the
    group being [g] before the match. *)
Inductive captures : Re.regex → string → option string → option string → Prop :=
| captures_chr p c g : p c = true → captures (Re.Chr p) (String c "") g g
| captures_eps g : captures Re.Eps "" g g
| captures_seq r1 r2 a b g g1 g2 :
    captures r1 a g g1 → captures r2 b g1 g2 → captures (Re.Seq r1 r2) (a +:+ b) g g2
| captures_alt_l r1 r2 a g g1 : captures r1 a g g1 → captures (Re.Alt r1 r2) a g g1
| captures_alt_r r1 r2 a g g1 : captures r2 a g g1 → captures (Re.Alt r1 r2) a g g1
| captures_star_nil r g : captures (Re.Star r) "" g g
| captures_star_cons r a b g g1 g2 :
    a ≠ "" → captures r a g g1 → captures (Re.Star r) b g1 g2 →
    captures (Re.Star r) (a +:+ b) g g2
| captures_group r a g g1 : captures r a g g1 → captures (Re.Group r) a g (Some a).

Fixpoint has_group (r : Re.regex) : bool :=
  match r with
  | Re.Chr _ | Re.Eps => false
  | Re.Seq r1 r2 | Re.Alt r1 r2 => has_group r1 || has_group r2
  | Re.Star r1 => has_group r1
  | Re.Group _ => true
  end.

(** every character of [s] passes the test [f] *)
Fixpoint all_chars (f : ascii → bool) (s : string) : bool :=
  match s with
  | "" => true
  | String c s' => f c && all_chars f s'
  end.

(** A text whose only white space is single blanks: every white-space
    character is the blank, and no blank follows a blank. *)
Fixpoint single_spaced (s : string) : bool :=
  match s with
  | "" => true
  | String c s' =>
      (negb (Str.isspace c) || bool_decide (c = " "%char))
      && negb (bool_decide (c = " "%char) && Str.startswith s' " ")
      && single_spaced s'
  end.

(** A text that neither begins nor ends with a character that [drop]
    takes. *)
Definition trimmed (drop : ascii → bool) (s : string) : Prop :=
  (∀ c r, s = String c r → drop c = false)
  ∧ (∀ pre c, s = pre +:+ String c "" → drop c = false).

(** The identifiers a list of cards shows: what [get_attribute("listno")]
    gives, the failed reads, the missing and the empty ones left out. *)
Definition card_ids (cs : list Card) : list string :=
  omap (λ card, match listno card with
                | Reply (Some mls) => if bool_decide (mls = "") then None else Some mls
                | _ => None
                end) cs.

(** Goals about membership in sets built with unions and singletons. *)
Ltac sets := set_unfold; try intros ?; intuition (subst; eauto; congruence).

(** The move that starts a handler, and the handlers a list of moves
    starts. *)
Definition is_fetch (m : Move) : bool :=
  match m with
  | Fetch _ _ _ => true
  | _ => false
  end.

Definition handler_runs (moves : list Move) : nat :=
  length (filter (λ m, is_fetch m = true) moves).

(** The requests a crawl knows: the ones [main] starts with and the ones
    that have reached the queue from [add_requests]. *)
Definition known (c : Crawl) : list Request := queue main_init ++ added c.

(** [r] is a request of [l], tried again or not. *)
Definition request_of (l : list Request) (r : Request) : Prop :=
  ∃ r0, r0 ∈ l ∧ url r = url r0 ∧ label r = label r0 ∧ user_data r = user_data r0.

(** The city that [r] carries was read from the URL of a request of [l]
    that the router sends to [extract_search_results]. *)
Definition city_from_search (l : list Request) (r : Request) : Prop :=
  ∃ s, s ∈ l ∧ is_detail s = false ∧ user_data r = {[ "city" := search_city (url s) ]}.

(** A row of eleven cells whose last one, the city, was read from the URL
    of such a request. *)
Definition row_with_city (l : list Request) (row : list string) : Prop :=
  length row = 11
  ∧ ∃ s, s ∈ l ∧ is_detail s = false ∧ row !! 10 = Some (search_city (url s)).

Definition city_passed (c : Crawl) : Prop :=
  Forall (request_of (known c)) (queue c)
  ∧ Forall (λ h, request_of (known c) (sr_request h)
                 ∧ is_detail (sr_request h) = false
                 ∧ sr_city h = search_city (url (sr_request h))
                 ∧ Forall (λ q, user_data q = {[ "city" := sr_city h ]}) (sr_added h))
      (running c)
  ∧ Forall (city_from_search (known c)) (added c)
  ∧ Forall (row_with_city (known c)) (csv_rows c).

(** What the matcher does on [c*] for a class [c]: it takes the longest
    run of the class and gives back one character at a time until what
    follows is accepted. *)
Fixpoint longest_first {R : Type} (f : ascii → bool) (s : string) (k : string → option R)
    : option R :=
  match s with
  | String c s' =>
      if f c
      then match longest_first f s' k with
           | Some x => Some x
           | None => k s
           end
      else k s
  | "" => k s
  end.

(** * Properties *)

(** ** Text helpers on examples *)

Example is_valid_url_ex1 : is_valid_url "/draper-homes?page=2" = true.
Proof. reflexivity. Qed.
Example is_valid_url_ex2 : is_valid_url "JavaScript:void(0)" = false.
Proof. reflexivity. Qed.
Example split_ex1 : Str.split "/listing/" "a/listing/listing/b/listing/" = ["a"; "listing/b"; ""].
Proof. reflexivity. Qed.
Example strip_ex1 : Str.strip_chars " ," ", Salt Lake City, UT , " = "Salt Lake City, UT".
Proof. reflexivity. Qed.
Example replace_ex1 : Str.replace "," "" "1,234,567" = "1234567".
Proof. reflexivity. Qed.
Example lower_ex1 : Str.lower "MailTo:X@y" = "mailto:x@y".
Proof. reflexivity. Qed.

Example city_re_ex1 :
  Re.search Re.CITY_RE "https://www.utahrealestate.com/salt-lake-city-homes?page=3"
  = Some (Some "salt-lake-city").
Proof. vm_compute. reflexivity. Qed.
Example city_re_ex2 :
  Re.search Re.CITY_RE "https://www.utahrealestate.com/a-homes-homes/x-homes" = Some (Some "a-homes").
Proof. vm_compute. reflexivity. Qed.
Example city_re_ex3 : Re.search Re.CITY_RE "https://www.utahrealestate.com/listing/1234" = None.
Proof. vm_compute. reflexivity. Qed.
Example year_re_ex1 :
  Re.search Re.YEAR_RE "<li>YEAR  built: <b>1987</b></li>" = Some (Some "1987").
Proof. vm_compute. reflexivity. Qed.
Example lot_re_ex1 : Re.search Re.LOT_RE "Lot Size: 0.25 acres" = Some (Some "0.25 ac").
Proof. vm_compute. reflexivity. Qed.
Example lot_re_ex2 : Re.search Re.LOT_RE "Lot ., ac 5" = Some (Some ", ac").
Proof. vm_compute. reflexivity. Qed.
Example lot_re_ex3 : Re.search Re.LOT_RE "lot 8,712 sq. ft." = Some (Some "8,712 sq. ft").
Proof. vm_compute. reflexivity. Qed.
Example garage_re_ex1 : Re.search Re.GARAGE_RE "Garage/Parking: Attached, 2 car" = Some (Some "2").
Proof. vm_compute. reflexivity. Qed.

(** ** Text helpers in general *)

Lemma sapp_nil_r s : s +:+ "" = s.
Proof. induction s as [|c s IH]; cbn; [done | by rewrite IH]. Qed.

Lemma sapp_assoc s1 s2 s3 : (s1 +:+ s2) +:+ s3 = s1 +:+ s2 +:+ s3.
Proof. induction s1 as [|c s1 IH]; cbn; [done | by rewrite IH]. Qed.

Lemma sapp_cons c s1 s2 : String c s1 +:+ s2 = String c (s1 +:+ s2).
Proof. done. Qed.

Lemma sapp_length s1 s2 : String.length (s1 +:+ s2) = String.length s1 + String.length s2.
Proof. induction s1 as [|c s1 IH]; cbn; [done | by rewrite IH]. Qed.

Lemma sapp_eq_nil s1 s2 : s1 +:+ s2 = "" → s1 = "" ∧ s2 = "".
Proof. destruct s1; cbn; [by intros -> | discriminate]. Qed.

Lemma startswith_nil s : Str.startswith s "" = true.
Proof. by destruct s. Qed.

Lemma startswith_spec s p : Str.startswith s p = true ↔ ∃ rest, s = p +:+ rest.
Proof.
  revert s. induction p as [|a p IH]; intros s; cbn.
  - split; [intros _; by exists s | by destruct s].
  - destruct s as [|b s]; cbn.
    + split; [discriminate | intros [rest H]; discriminate].
    + case_decide as Hab.
      * subst b. rewrite IH. split; intros [rest H]; exists rest; congruence.
      * split; [discriminate | intros [rest H]; congruence].
Qed.

Lemma contains_spec sub s :
  Str.contains sub s = true ↔ ∃ pre post, s = pre +:+ sub +:+ post.
Proof.
  induction s as [|c s IH]; cbn [Str.contains].
  - rewrite orb_false_r, startswith_spec. split.
    + intros [rest H]. by exists "", rest.
    + intros (pre & post & H). symmetry in H.
      apply sapp_eq_nil in H as [-> H]. apply sapp_eq_nil in H as [-> ->]. by exists "".
  - rewrite orb_true_iff, IH, startswith_spec. split.
    + intros [[rest H] | (pre & post & H)].
      * by exists "", rest.
      * exists (String c pre), post. cbn. by rewrite H.
    + intros (pre & post & H). destruct pre as [|a pre].
      * left. by exists post.
      * right. cbn in H. exists pre, post. congruence.
Qed.

Lemma has_char_app s1 s2 c :
  Str.has_char (s1 +:+ s2) c = Str.has_char s1 c || Str.has_char s2 c.
Proof. induction s1 as [|a s1 IH]; cbn; [done | by case_decide]. Qed.

Lemma lower_app s1 s2 : Str.lower (s1 +:+ s2) = Str.lower s1 +:+ Str.lower s2.
Proof. induction s1 as [|c s1 IH]; cbn; [done | by rewrite IH]. Qed.

Lemma lower_eq_nil s : Str.lower s = "" ↔ s = "".
Proof. destruct s; cbn; split; done. Qed.

Lemma rev_app_spec s1 s2 s3 : String.rev_app s1 s2 +:+ s3 = String.rev_app s1 (s2 +:+ s3).
Proof. revert s2. induction s1 as [|c s1 IH]; intros s2; cbn; [done | by rewrite IH]. Qed.

(** Reading a text with no separator in it yields the one piece. *)
Lemma split_go_plain c cur s :
  Str.has_char s c = false →
  Str.split_go (String c "") 0 cur s = [String.rev cur +:+ s].
Proof.
  revert cur. induction s as [|a s IH]; intros cur H; cbn in *.
  - by rewrite sapp_nil_r.
  - case_decide as Hca; [discriminate|].
    case_decide; [congruence|]. rewrite IH by done.
    unfold String.rev. cbn. by rewrite !rev_app_spec.
Qed.

Lemma split_char_head c s :
  Str.has_char s c = false → Str.first_item (Str.split (String c "") s) = s.
Proof. intros H. unfold Str.split. by rewrite split_go_plain. Qed.

(** A separator that starts with [c] does not occur in a text without [c]. *)
Lemma split_go_no_sep c sep cur s :
  Str.has_char s c = false →
  Str.split_go (String c sep) 0 cur s = [String.rev cur +:+ s].
Proof.
  revert cur. induction s as [|a s IH]; intros cur H; cbn in *.
  - by rewrite sapp_nil_r.
  - case_decide as Hca; [discriminate|].
    case_decide; [congruence|]. rewrite IH by done.
    unfold String.rev. cbn. by rewrite !rev_app_spec.
Qed.

(** [replace(c, "")] takes every [c] out and leaves the rest as it is. *)
Lemma replace_char_empty c s : Str.replace (String c "") "" s = Str.without_char c s.
Proof.
  unfold Str.replace. induction s as [|a s IH]; cbn; [done|].
  case_decide as H1; case_decide as H2; try congruence; cbn; by rewrite IH.
Qed.

Lemma without_char_has c s : Str.has_char (Str.without_char c s) c = false.
Proof.
  induction s as [|a s IH]; cbn; [done|].
  case_decide; [done|]. cbn. by case_decide.
Qed.

Lemma without_char_id c s : Str.has_char s c = false → Str.without_char c s = s.
Proof.
  induction s as [|a s IH]; cbn; [done|].
  case_decide; [discriminate|]. intros Hs. by rewrite IH.
Qed.

(** ** [is_valid_url] *)

Lemma is_valid_url_false u : is_valid_url u = false ↔ refused u.
Proof.
  unfold is_valid_url, refused. case_decide as Hu.
  - split; [by left | done].
  - rewrite negb_false_iff, existsb_exists. split.
    + intros (p & Hp & Hs). right. apply startswith_spec in Hs as [rest Hs].
      exists p, rest. by rewrite list_elem_of_In.
    + intros [? | (p & rest & Hp & Hs)]; [done|].
      exists p. rewrite <- list_elem_of_In. split; [done|].
      apply startswith_spec. by exists rest.
Qed.

(** C8. [is_valid_url] answers false exactly for the empty string and for
    the strings whose lower-case form starts with "javascript:", "mailto:",
    "tel:" or "#", whatever their case ("JavaScript:void(0)" is turned
    down), and true for every other string. *)
Theorem is_valid_url_case_insensitive (u : string) :
  (is_valid_url u = false ↔ refused u)
  ∧ (is_valid_url u = true ↔ ¬ refused u)
  ∧ is_valid_url "JavaScript:void(0)" = false
  ∧ is_valid_url "" = false.
Proof.
  split; [apply is_valid_url_false|]. split; [|done].
  rewrite <- is_valid_url_false. by destruct (is_valid_url u).
Qed.

(** ** The identifier in the detail URL *)

Lemma split_detail_url mls :
  Str.split "/listing/" (detail_url mls)
  = "https://www.utahrealestate.com" :: Str.split "/listing/" mls.
Proof. vm_compute. reflexivity. Qed.

Lemma url_mls_detail_url mls : Str.has_char mls "/" = false → url_mls (detail_url mls) = mls.
Proof.
  intros H. unfold url_mls. rewrite split_detail_url.
  unfold Str.split at 2. rewrite (split_go_no_sep "/" "listing/" "" mls H).
  change (Str.first_item (Str.split "/" mls) = mls). by apply split_char_head.
Qed.

(** ** The matcher against what a pattern matches *)

Section MatcherSound.
Context {R : Type}.
Implicit Types (k : string → option string → option R).

(** Whatever the matcher accepts is a match, followed by something the
    continuation accepts. *)
Lemma run_sound fuel r s g k x :
  Re.run fuel r s g k = Some x →
  ∃ s1 s2 g', s = s1 +:+ s2 ∧ Re.matches r s1 ∧ k s2 g' = Some x.
Proof.
  revert r s g k x. induction fuel as [|f IH]; intros r s g k x H; [discriminate|].
  destruct r as [p| |r1 r2|r1 r2|r1|r1]; cbn in H.
  - destruct s as [|c s']; [discriminate|]. destruct (p c) eqn:Hp; [|discriminate].
    exists (String c ""), s', g. split_match; by constructor.
  - exists "", s, g. split_match; constructor.
  - apply IH in H as (a & s' & g1 & -> & Ha & H).
    apply IH in H as (b & s2 & g2 & -> & Hb & H).
    exists (a +:+ b), s2, g2. rewrite sapp_assoc. split_match; by constructor.
  - destruct (Re.run f r1 s g k) as [y|] eqn:H1.
    + inversion H; subst y. apply IH in H1 as (a & s2 & g' & -> & Ha & H1).
      exists a, s2, g'. split_match; by apply Re.matches_alt_l.
    + apply IH in H as (a & s2 & g' & -> & Ha & H).
      exists a, s2, g'. split_match; by apply Re.matches_alt_r.
  - match type of H with match ?t with _ => _ end = _ => destruct t as [y|] eqn:H1 end.
    + inversion H; subst y. apply IH in H1 as (a & s' & g1 & -> & Ha & H1).
      match type of H1 with (if ?c then _ else _) = _ => destruct c eqn:Hlen end;
        [|discriminate].
      apply IH in H1 as (b & s2 & g2 & -> & Hb & H1).
      exists (a +:+ b), s2, g2. rewrite sapp_assoc. split_match.
      apply Re.matches_star_cons; [|done..].
      intros ->. apply Nat.ltb_lt in Hlen. cbn [String.append] in Hlen. lia.
    + exists "", s, g. split_match; constructor.
  - apply IH in H as (a & s2 & g' & -> & Ha & H).
    exists a, s2, (Some (Re.consumed (a +:+ s2) s2)). split_match; by constructor.
Qed.

Lemma need_mono r n m : n ≤ m → Re.need r n ≤ Re.need r m.
Proof. intros Hnm. induction r; cbn; lia. Qed.

(** Given steps enough, a match the continuation accepts is found (this
    one or an earlier choice of the matcher). *)
Lemma run_complete r s1 :
  Re.matches r s1 →
  ∀ fuel s2 g k,
    Re.need r (String.length (s1 +:+ s2)) ≤ fuel →
    (∀ g', is_Some (k s2 g')) →
    is_Some (Re.run fuel r (s1 +:+ s2) g k).
Proof.
  induction 1 as [p c Hp| |r1 r2 a b Ha IHa Hb IHb|r1 r2 a Ha IHa|r1 r2 a Ha IHa
                 |r|r a b Hne Ha IHa Hb IHb|r a Ha IHa];
    intros fuel s2 g k Hfuel Hk; cbn [Re.need] in Hfuel;
    (destruct fuel as [|f]; [clear -Hfuel; lia|]); cbn [Re.run].
  - cbn. by rewrite Hp.
  - done.
  - rewrite sapp_assoc in *.
    apply IHa; [clear -Hfuel; lia|]. intros g'. apply IHb; [|done].
    assert (Re.need r2 (String.length (b +:+ s2))
            ≤ Re.need r2 (String.length (a +:+ b +:+ s2))) as Hm
      by (apply need_mono; rewrite (sapp_length a); lia).
    clear -Hfuel Hm. lia.
  - destruct (Re.run f r1 (a +:+ s2) g k) eqn:H1; [done|].
    specialize (IHa f s2 g k). rewrite H1 in IHa.
    destruct IHa as [? ?]; [clear -Hfuel; lia|done|done].
  - destruct (Re.run f r1 (a +:+ s2) g k) eqn:H1; [done|].
    apply IHa; [clear -Hfuel; lia|done].
  - match goal with |- is_Some (match ?t with _ => _ end) => destruct t end; [done|].
    apply Hk.
  - rewrite sapp_assoc in *.
    match goal with |- is_Some (match ?t with _ => _ end) => destruct t eqn:H1 end; [done|].
    exfalso. eapply is_Some_None. rewrite <- H1. apply IHa; [clear -Hfuel; lia|].
    intros g'. rewrite (sapp_length a).
    destruct a as [|c a]; [done|]. cbn [String.length].
    destruct (_ <? _) eqn:Hlt; [|apply Nat.ltb_ge in Hlt; clear -Hlt; lia].
    apply IHb; [|done].
    assert (Re.need r (String.length (b +:+ s2))
            ≤ Re.need r (String.length (String c a +:+ b +:+ s2))) as Hm
      by (apply need_mono; rewrite (sapp_length (String c a)); lia).
    assert (S (String.length (b +:+ s2)) ≤ String.length (String c a +:+ b +:+ s2)) as Hl
      by (rewrite (sapp_length (String c a)); cbn [String.length]; lia).
    cbn [Re.need]. clear -Hfuel Hm Hl. lia.
  - apply IHa; [clear -Hfuel; lia|]. intros g'. apply Hk.
Qed.
End MatcherSound.

Lemma search_sound r s m :
  Re.search r s = Some m → ∃ pre mid post, s = pre +:+ mid +:+ post ∧ Re.matches r mid.
Proof.
  induction s as [|c s IH]; cbn [Re.search]; unfold Re.match_here.
  - destruct (Re.run _ _ _ _ _) eqn:H; [|discriminate]. intros _.
    apply run_sound in H as (a & b & g' & Hs & Ha & _). by exists "", a, b.
  - destruct (Re.run _ _ _ _ _) eqn:H.
    + intros _. apply run_sound in H as (a & b & g' & Hs & Ha & _). by exists "", a, b.
    + intros (pre & mid & post & -> & Hm)%IH. by exists (String c pre), mid, post.
Qed.

Lemma search_complete r pre mid post :
  Re.matches r mid → is_Some (Re.search r (pre +:+ mid +:+ post)).
Proof.
  intros Hm. assert (Hhere : is_Some (Re.match_here r (mid +:+ post))).
  { unfold Re.match_here. by apply run_complete. }
  induction pre as [|c pre IH]; cbn [String.append Re.search].
  - destruct (mid +:+ post) eqn:E; cbn [Re.search];
      destruct Hhere as [x ->]; done.
  - destruct (Re.match_here r (String c (pre +:+ mid +:+ post))); done.
Qed.

Lemma matches_lit p m : Re.matches (Re.lit p) m ↔ m = p.
Proof.
  revert m. induction p as [|c p IH]; intros m; cbn.
  - split; [by inversion 1 | intros ->; constructor].
  - split.
    + inversion 1 as [| |? ? a b Ha Hb| | | | |]; subst.
      apply IH in Hb as ->. inversion Ha as [? ? Hc| | | | | | |]; subst.
      apply bool_decide_eq_true in Hc as ->. done.
    + intros ->. change (String c p) with (String c "" +:+ p).
      constructor; [|by apply IH]. constructor. by apply bool_decide_eq_true.
Qed.

(** one or more characters of a class *)
Lemma matches_star_class f m :
  Re.matches (Re.Star (Re.Chr f)) m ↔ Str.lstrip f m = "".
Proof.
  split.
  - remember (Re.Star (Re.Chr f)) as r eqn:Er. induction 1; try discriminate; [done|].
    inversion Er; subst. match goal with H : Re.matches (Re.Chr _) _ |- _ => inversion H; subst end.
    cbn. match goal with H : f _ = true |- _ => rewrite H end. auto.
  - induction m as [|c m IH]; cbn; [intros _; constructor|].
    destruct (f c) eqn:Hc; [|discriminate]. intros Hm.
    change (String c m) with (String c "" +:+ m).
    apply Re.matches_star_cons; [done|by constructor|by apply IH].
Qed.

Lemma matches_plus_class f m :
  Re.matches (Re.Plus (Re.Chr f)) m ↔ m ≠ "" ∧ Str.lstrip f m = "".
Proof.
  unfold Re.Plus. split.
  - inversion 1 as [| |? ? a b Ha Hb| | | | |]; subst.
    inversion Ha as [? c Hc| | | | | | |]; subst. apply matches_star_class in Hb.
    cbn. by rewrite Hc.
  - intros [Hne Hm]. destruct m as [|c m]; [done|]. cbn in Hm.
    destruct (f c) eqn:Hc; [|discriminate].
    change (String c m) with (String c "" +:+ m).
    constructor; [by constructor | by apply matches_star_class].
Qed.

Lemma lstrip_not_slash m :
  Str.lstrip (λ c, negb (bool_decide (c = "/"%char))) m = "" ↔ Str.has_char m "/" = false.
Proof.
  induction m as [|c m IH]; cbn; [done|].
  destruct (decide (c = "/"%char)) as [->|Hne].
  - cbn. split; discriminate.
  - rewrite bool_decide_eq_false_2 by done. cbn. done.
Qed.

(** ** The city of a search page *)

Lemma matches_CITY_RE m :
  Re.matches Re.CITY_RE m ↔
  ∃ slug, m = "utahrealestate.com/" +:+ slug +:+ "-homes"
          ∧ slug ≠ "" ∧ Str.has_char slug "/" = false.
Proof.
  unfold Re.CITY_RE. split.
  - inversion 1 as [| |? ? a b Ha Hb| | | | |]; subst.
    inversion Hb as [| |? ? b1 b2 Hb1 Hb2| | | | |]; subst.
    inversion Hb1 as [| | | | | | |? ? Hg]; subst.
    apply (matches_lit "utahrealestate.com/") in Ha as ->.
    apply (matches_lit "-homes") in Hb2 as ->.
    apply matches_plus_class in Hg as [Hne Hs]. apply lstrip_not_slash in Hs.
    by exists b1.
  - intros (slug & -> & Hne & Hs). constructor; [by apply matches_lit|].
    constructor; [|by apply matches_lit]. constructor.
    apply matches_plus_class. split; [done|]. by apply lstrip_not_slash.
Qed.

Lemma search_city_re u : is_Some (Re.search Re.CITY_RE u) ↔ has_city_slug u.
Proof.
  split.
  - intros [m (pre & mid & post & -> & Hm)%search_sound].
    apply matches_CITY_RE in Hm as (slug & -> & Hne & Hs).
    exists pre, slug, post. by rewrite !sapp_assoc.
  - intros (pre & slug & post & -> & Hne & Hs).
    replace (pre +:+ "utahrealestate.com/" +:+ slug +:+ "-homes" +:+ post)
      with (pre +:+ ("utahrealestate.com/" +:+ slug +:+ "-homes") +:+ post)
      by by rewrite !sapp_assoc.
    apply search_complete, matches_CITY_RE. by exists slug.
Qed.

Lemma search_city_unknown u : ¬ has_city_slug u → search_city u = "unknown".
Proof.
  intros H. unfold search_city. destruct (Re.search Re.CITY_RE u) eqn:E; [|done].
  destruct H. apply search_city_re. by rewrite E.
Qed.

(** ** The [data] dictionary, field by field *)

Section Fields.
Variables (request : Request) (page : Page).
Let data := extract_detail request page.

Lemma data_mls : data !! "mls" = Some (url_mls (url request)).
Proof. reflexivity. Qed.

Lemma data_price : data !! "price" = Some (safe_text page ".prop-details-overview li span").
Proof. reflexivity. Qed.

Lemma data_address :
  data !! "address"
  = Some (Str.strip_chars " ," (safe_text page ".prop___overview h2" +:+ ", "
                                +:+ safe_text page "#location-data")).
Proof. reflexivity. Qed.

Lemma data_beds :
  data !! "beds"
  = Some (Str.without_char "," (safe_text page ".prop-details-overview li:nth-of-type(2) span")).
Proof. rewrite <- replace_char_empty. reflexivity. Qed.

Lemma data_baths :
  data !! "baths"
  = Some (Str.without_char "," (safe_text page ".prop-details-overview li:nth-of-type(3) span")).
Proof. rewrite <- replace_char_empty. reflexivity. Qed.

Lemma data_sqft :
  data !! "sqft"
  = Some (Str.without_char "," (safe_text page ".prop-details-overview li:nth-of-type(4) span")).
Proof. rewrite <- replace_char_empty. reflexivity. Qed.

Lemma data_city : data !! "city" = Some (default "unknown" (user_data request !! "city")).
Proof. reflexivity. Qed.

Lemma data_dom : dom data = list_to_set CSV_HEADERS.
Proof.
  subst data. unfold extract_detail. rewrite dom_list_to_map_L. reflexivity.
Qed.
End Fields.

Lemma safe_text_missing page selector : missing page selector → safe_text page selector = "".
Proof.
  unfold missing, safe_text. destruct (query_selector page selector) as [[el|]|]; [|done..].
  by intros [-> | ->].
Qed.

(** ** C6 *)

(** C6. For a non-empty identifier with no "/" in it, the identifier read
    back from the detail URL made for it is the identifier itself: the card
    that claims it adds one Detail request with that URL, the router sends
    the request to [extract_detail], and the [mls] of the record is the
    identifier claimed. *)
Theorem mls_round_trip (mls : string) :
  mls ≠ "" → Str.has_char mls "/" = false →
  url_mls (detail_url mls) = mls
  ∧ ∀ city card visited page,
      listno card = Reply (Some mls) → add_requests_ok card = true → mls ∉ visited →
      ∃ r, claim_card city card visited = (visited ∪ {[ mls ]}, [r])
           ∧ url r = detail_url mls
           ∧ is_detail r = true
           ∧ extract_detail r page !! "mls" = Some mls.
Proof.
  intros Hne Hs. split; [by apply url_mls_detail_url|].
  intros city card visited page Hl Hok Hv.
  eexists. unfold claim_card. rewrite Hl, Hok.
  rewrite bool_decide_eq_false_2, bool_decide_eq_false_2 by done. cbn [orb].
  split; [reflexivity|]. split; [reflexivity|]. split.
  - unfold is_detail. cbn [label new_request]. by rewrite orb_true_r.
  - rewrite data_mls. cbn [url new_request]. by rewrite url_mls_detail_url.
Qed.

Lemma mls_round_trip_witness :
  "2084421" ≠ "" ∧ Str.has_char "2084421" "/" = false
  ∧ url_mls (detail_url "2084421") = "2084421".
Proof.
  split; [discriminate|]. split; [reflexivity|].
  apply (mls_round_trip "2084421"); [discriminate | reflexivity].
Defined.

(** ** Trimming *)

Section Strip.
Variable drop : ascii → bool.

Lemma rstrip_all t : Str.lstrip drop t = "" → Str.rstrip drop t = "".
Proof.
  induction t as [|c t IH]; cbn; [done|].
  destruct (drop c) eqn:Hc; [|discriminate]. intros H. by rewrite (IH H).
Qed.

Lemma rstrip_app_all s t :
  Str.lstrip drop t = "" → Str.rstrip drop (s +:+ t) = Str.rstrip drop s.
Proof.
  intros Ht. induction s as [|c s IH]; cbn; [by apply rstrip_all | by rewrite IH].
Qed.

Lemma lstrip_app_all s t :
  Str.lstrip drop t = "" →
  Str.lstrip drop (s +:+ t)
  = match Str.lstrip drop s with "" => "" | r => r +:+ t end.
Proof.
  intros Ht. induction s as [|c s IH]; cbn; [done|]. by destruct (drop c).
Qed.

Lemma lstrip_all_app t s :
  Str.lstrip drop t = "" → Str.lstrip drop (t +:+ s) = Str.lstrip drop s.
Proof.
  induction t as [|c t IH]; cbn; [done|]. destruct (drop c); [done | discriminate].
Qed.

Lemma strip_by_app_all s t :
  Str.lstrip drop t = "" → Str.strip_by drop (s +:+ t) = Str.strip_by drop s.
Proof.
  intros Ht. unfold Str.strip_by. rewrite lstrip_app_all by done.
  destruct (Str.lstrip drop s) eqn:E; [done|]. by rewrite rstrip_app_all.
Qed.

Lemma strip_by_all_app t s :
  Str.lstrip drop t = "" → Str.strip_by drop (t +:+ s) = Str.strip_by drop s.
Proof. intros Ht. unfold Str.strip_by. by rewrite lstrip_all_app. Qed.

Lemma lstrip_head s c r : Str.lstrip drop s = String c r → drop c = false.
Proof.
  induction s as [|a s IH]; cbn; [done|].
  destruct (drop a) eqn:Ha; [done|]. by intros [= <- _].
Qed.

Lemma rstrip_head c r :
  Str.rstrip drop (String c r) = "" ∨ ∃ r', Str.rstrip drop (String c r) = String c r'.
Proof.
  cbn. destruct (Str.rstrip drop r); [destruct (drop c)|]; eauto.
Qed.

Lemma rstrip_last s pre c : Str.rstrip drop s = pre +:+ String c "" → drop c = false.
Proof.
  revert pre. induction s as [|a s IH]; intros pre; cbn.
  - by destruct pre.
  - destruct (Str.rstrip drop s) as [|b r] eqn:E.
    + destruct (drop a) eqn:Ha; [by destruct pre|].
      destruct pre as [|p pre]; cbn; [by intros [= <-]|]. intros [= _ H]. by destruct pre.
    + destruct pre as [|p pre]; cbn; [discriminate|]. intros [= _ H]. by apply (IH pre).
Qed.

(** What [strip] returns neither begins nor ends with a dropped character. *)
Lemma strip_by_trimmed s :
  (∀ c r, Str.strip_by drop s = String c r → drop c = false)
  ∧ (∀ pre c, Str.strip_by drop s = pre +:+ String c "" → drop c = false).
Proof.
  unfold Str.strip_by. split.
  - intros c r H. destruct (Str.lstrip drop s) as [|a t] eqn:E; [done|].
    apply lstrip_head in E. destruct (rstrip_head a t) as [H'|[r' H']]; congruence.
  - intros pre c H. by apply rstrip_last in H.
Qed.

Lemma rstrip_id s :
  (∀ pre c, s = pre +:+ String c "" → drop c = false) → Str.rstrip drop s = s.
Proof.
  induction s as [|a s IH]; intros H; cbn; [done|].
  rewrite IH.
  - destruct s; [|done]. by rewrite (H "" a).
  - intros pre c ->. by apply (H (String a pre)).
Qed.

(** A text that neither begins nor ends with a dropped character is left
    as it is. *)
Lemma strip_by_id s :
  (∀ c r, s = String c r → drop c = false) →
  (∀ pre c, s = pre +:+ String c "" → drop c = false) →
  Str.strip_by drop s = s.
Proof.
  intros Hh Hl. unfold Str.strip_by. destruct s as [|a s]; [done|].
  cbn [Str.lstrip]. rewrite (Hh a s) by done. by apply rstrip_id.
Qed.
End Strip.

(** ** C7 *)

(** C7, amended. The address is the street text, ", " and the city/state
    text put together and then trimmed of leading and trailing blanks and
    commas.  With both texts empty it is the empty string; with one of them
    empty it is the other one trimmed of leading and trailing blanks and
    commas, which is that text itself when it neither begins nor ends with
    one; in every case the address neither begins nor ends with a blank or
    a comma. *)
Theorem address_joined_and_trimmed (request : Request) (page : Page) :
  let street := safe_text page ".prop___overview h2" in
  let city_state := safe_text page "#location-data" in
  ∃ address,
    extract_detail request page !! "address" = Some address
    ∧ address = Str.strip_chars " ," (street +:+ ", " +:+ city_state)
    ∧ (street = "" → city_state = "" → address = "")
    ∧ (city_state = "" → address = Str.strip_chars " ," street)
    ∧ (street = "" → address = Str.strip_chars " ," city_state)
    ∧ (∀ s, (∀ c r, s = String c r → Str.has_char " ," c = false) →
            (∀ pre c, s = pre +:+ String c "" → Str.has_char " ," c = false) →
            Str.strip_chars " ," s = s)
    ∧ (∀ c r, address = String c r → Str.has_char " ," c = false)
    ∧ (∀ pre c, address = pre +:+ String c "" → Str.has_char " ," c = false).
Proof.
  intros street city_state. eexists. split; [apply data_address|].
  fold street city_state. split; [done|]. unfold Str.strip_chars.
  split; [by intros -> ->|]. split; [|split; [|split]].
  - intros ->. by apply strip_by_app_all.
  - intros ->. by apply (strip_by_all_app _ ", ").
  - intros s. apply strip_by_id.
  - apply strip_by_trimmed.
Qed.

Lemma address_joined_and_trimmed_witness :
  extract_detail (new_request (detail_url "2084421") (Some "detail") ∅)
    (detail_page [(".prop___overview h2", "12 Elm St")] "") !! "address" = Some "12 Elm St".
Proof.
  destruct (address_joined_and_trimmed
              (new_request (detail_url "2084421") (Some "detail") ∅)
              (detail_page [(".prop___overview h2", "12 Elm St")] ""))
    as (address & Ha & _ & _ & Hone & _ & Hid & _).
  rewrite Ha. f_equal. rewrite Hone by reflexivity. reflexivity.
Defined.

(** C7 as stated fails: a street text that ends with a comma, next to an
    empty city/state text, does not come out as it went in. *)
Lemma address_not_the_other_component :
  ∃ request page,
    safe_text page "#location-data" = ""
    ∧ safe_text page ".prop___overview h2" = "12 Elm St,"
    ∧ extract_detail request page !! "address" = Some "12 Elm St".
Proof.
  exists (new_request (detail_url "2084421") (Some "detail") ∅),
         (detail_page [(".prop___overview h2", "12 Elm St,")] "").
  repeat split; reflexivity.
Qed.

(** ** C3 *)

(** The four summary fields in general: [beds], [baths] and [sqft] are the
    element text with every comma taken out and nothing else changed;
    [price] is the element text as [safe_text] returns it. *)
Lemma summary_fields (request : Request) (page : Page) :
  let data := extract_detail request page in
  data !! "price" = Some (safe_text page ".prop-details-overview li span")
  ∧ data !! "beds"
    = Some (Str.without_char "," (safe_text page ".prop-details-overview li:nth-of-type(2) span"))
  ∧ data !! "baths"
    = Some (Str.without_char "," (safe_text page ".prop-details-overview li:nth-of-type(3) span"))
  ∧ data !! "sqft"
    = Some (Str.without_char "," (safe_text page ".prop-details-overview li:nth-of-type(4) span")).
Proof.
  cbn zeta. by rewrite data_price, data_beds, data_baths, data_sqft.
Qed.

(** C3, on a page that shows "$450,000", "3", "2" and "2,500": the comma
    of [sqft] is gone, the comma of [price] is still there, so [price] is
    not the element text with its commas removed. *)
Theorem price_keeps_its_commas :
  let page := detail_page
                [ (".prop-details-overview li span", "$450,000");
                  (".prop-details-overview li:nth-of-type(2) span", "3");
                  (".prop-details-overview li:nth-of-type(3) span", "2");
                  (".prop-details-overview li:nth-of-type(4) span", "2,500") ] "" in
  let data := extract_detail (new_request (detail_url "2084421") (Some "detail") ∅) page in
  safe_text page ".prop-details-overview li span" = "$450,000"
  ∧ data !! "price" = Some "$450,000"
  ∧ data !! "price" ≠ Some (Str.without_char "," "$450,000")
  ∧ data !! "beds" = Some "3"
  ∧ data !! "baths" = Some "2"
  ∧ data !! "sqft" = Some "2500".
Proof. cbn zeta. repeat split; try reflexivity. vm_compute. discriminate. Qed.

(** ** C10 *)

Lemma claim_card_city city card visited r :
  r ∈ (claim_card city card visited).2 →
  label r = Some "detail" ∧ user_data r = {[ "city" := city ]}
  ∧ ∃ mls, url r = detail_url mls ∧ (mls ∉ visited) ∧ mls ≠ ""
           ∧ listno card = Reply (Some mls) ∧ mls ∈ fst (claim_card city card visited).
Proof.
  unfold claim_card. destruct (listno card) as [[mls|]|]; cbn; try by intros ?%elem_of_nil.
  destruct (bool_decide (mls = "")) eqn:H1; cbn; [by intros ?%elem_of_nil|].
  destruct (bool_decide (mls ∈ visited)) eqn:H2; cbn; [by intros ?%elem_of_nil|].
  apply bool_decide_eq_false in H1, H2.
  destruct (add_requests_ok card); cbn; [|by intros ?%elem_of_nil].
  intros ->%list_elem_of_singleton. repeat split. exists mls. repeat split; try done.
  set_solver.
Qed.

Lemma claim_cards_acc city cs visited acc :
  foldl (λ acc card, let r := claim_card city card acc.1 in (r.1, acc.2 ++ r.2)) (visited, acc) cs
  = ((claim_cards city cs visited).1, acc ++ (claim_cards city cs visited).2).
Proof.
  unfold claim_cards. revert visited acc. induction cs as [|c cs IH]; intros visited acc; cbn.
  - by rewrite app_nil_r.
  - rewrite IH. rewrite (IH _ (claim_card city c visited).2). cbn. by rewrite app_assoc.
Qed.

Lemma claim_cards_cons city c cs visited :
  claim_cards city (c :: cs) visited
  = ((claim_cards city cs (claim_card city c visited).1).1,
     (claim_card city c visited).2 ++ (claim_cards city cs (claim_card city c visited).1).2).
Proof. unfold claim_cards at 1. cbn. by rewrite claim_cards_acc. Qed.

Lemma claim_cards_city city cs visited r :
  r ∈ (claim_cards city cs visited).2 →
  label r = Some "detail" ∧ user_data r = {[ "city" := city ]}.
Proof.
  revert visited. induction cs as [|c cs IH]; intros visited.
  - by intros ?%elem_of_nil.
  - rewrite claim_cards_cons. cbn. intros [H|H]%elem_of_app.
    + by apply claim_card_city in H as (? & ? & _).
    + by apply IH in H.
Qed.

Lemma from_url_cases accepted u l ud :
  (url_accepted accepted u = true ∧ from_url accepted u l ud = Reply (new_request u l ud))
  ∨ (url_accepted accepted u = false ∧ from_url accepted u l ud = Raises).
Proof. unfold from_url. destruct (url_accepted accepted u); eauto. Qed.

(** The pagination block on a valid href. *)
Lemma pagination_valid city page href :
  next_btn page = Some (Some href) → is_valid_url href = true →
  pagination city page
  = let target :=
      if Str.startswith href "/" then "https://www.utahrealestate.com" +:+ href else href in
    if url_accepted (next_accepted page) target
    then Reply [new_request target None {[ "city" := city ]}] else Raises.
Proof.
  intros Hn Hv. unfold pagination. rewrite Hn, Hv.
  rewrite bool_decide_eq_false_2 by (by intros ->). cbn [negb andb]. cbn zeta.
  unfold from_url. by destruct (url_accepted _ _).
Qed.

Lemma pagination_refused city page href :
  next_btn page = Some (Some href) → is_valid_url href = false → pagination city page = Reply [].
Proof. intros Hn Hv. unfold pagination. by rewrite Hn, Hv, andb_false_r. Qed.

Lemma pagination_elem city page out r :
  pagination city page = Reply out → r ∈ out →
  label r = None ∧ user_data r = {[ "city" := city ]}.
Proof.
  unfold pagination. destruct (next_btn page) as [[href|]|];
    try (intros [= <-]; by intros ?%elem_of_nil).
  destruct (_ && _); [|intros [= <-]; by intros ?%elem_of_nil].
  destruct (from_url_cases (next_accepted page)
              (if Str.startswith href "/" then "https://www.utahrealestate.com" +:+ href else href)
              None {[ "city" := city ]}) as [[_ ->] | [_ ->]]; [|done].
  intros [= <-]. by intros ->%list_elem_of_singleton.
Qed.

Lemma next_page_city city page r :
  r ∈ next_page city page → label r = None ∧ user_data r = {[ "city" := city ]}.
Proof.
  unfold next_page. destruct (pagination city page) as [out|] eqn:E; [|by intros ?%elem_of_nil].
  by apply (pagination_elem city page out).
Qed.

(** C10. The city falls back to the string "unknown": on a results page
    whose URL has no [utahrealestate.com/<slug>-homes] in it the city is
    "unknown", and so is the city carried by every request the page adds;
    on a detail request whose [user_data] has no "city" the record's city
    is "unknown". *)
Theorem city_defaults_to_unknown :
  (∀ request page visited,
     ¬ has_city_slug (url request) →
     search_city (url request) = "unknown"
     ∧ ∀ r, r ∈ (extract_search_results request page visited).2 →
            user_data r !! "city" = Some "unknown")
  ∧ (∀ request page,
       user_data request !! "city" = None →
       extract_detail request page !! "city" = Some "unknown").
Proof.
  split.
  - intros request page visited H. apply search_city_unknown in H. split; [done|].
    intros r. unfold extract_search_results. rewrite H.
    destruct (cards_appear page); cbn; [|by intros ?%elem_of_nil].
    intros [Hr|Hr]%elem_of_app.
    + apply claim_cards_city in Hr as [_ ->]. apply lookup_singleton_eq.
    + apply next_page_city in Hr as [_ ->]. apply lookup_singleton_eq.
  - intros request page H. by rewrite data_city, H.
Qed.

Lemma no_city_slug_in_listing_url : ¬ has_city_slug "https://www.utahrealestate.com/listing/2084421".
Proof. rewrite <- search_city_re. vm_compute. by intros [? ?]. Qed.

Lemma city_defaults_to_unknown_witness :
  search_city "https://www.utahrealestate.com/listing/2084421" = "unknown"
  ∧ extract_detail (new_request (detail_url "2084421") (Some "detail") ∅) (detail_page [] "")
      !! "city" = Some "unknown".
Proof.
  destruct city_defaults_to_unknown as [Hs Hd]. split.
  - apply (Hs (new_request "https://www.utahrealestate.com/listing/2084421" None ∅)
              (results_page true [] None) ∅), no_city_slug_in_listing_url.
  - apply Hd. reflexivity.
Defined.

(** ** C4 and C9: the next page *)

Lemma searches_none (l : list Request) :
  (∀ r, r ∈ l → is_detail r = true) → searches l = [].
Proof.
  unfold searches. induction l as [|r l IH]; intros H; [done|].
  rewrite filter_cons_False.
  - apply IH. intros r' Hr'. apply H. by right.
  - rewrite (H r) by left. discriminate.
Qed.

Lemma searches_claim_cards city cs visited : searches (claim_cards city cs visited).2 = [].
Proof.
  apply searches_none. intros r [Hl _]%claim_cards_city.
  unfold is_detail. rewrite Hl. by rewrite orb_true_r.
Qed.

Lemma next_page_refused city page href :
  next_btn page = Some (Some href) → refused href → next_page city page = [].
Proof.
  intros Hn Hr%is_valid_url_false. unfold next_page. by rewrite (pagination_refused _ _ href).
Qed.

(** A valid href that starts with "/": the URL made of it begins with the
    site's base and is taken. *)
Lemma pagination_slash city page rest :
  next_btn page = Some (Some ("/" +:+ rest)) → is_valid_url ("/" +:+ rest) = true →
  pagination city page
  = Reply [new_request ("https://www.utahrealestate.com/" +:+ rest) None {[ "city" := city ]}].
Proof. intros Hn Hv. by rewrite (pagination_valid _ _ _ Hn Hv). Qed.

Lemma refused_examples :
  refused "javascript:void(0)" ∧ refused "#top" ∧ refused "mailto:x@y.com" ∧ refused "".
Proof. rewrite <- !is_valid_url_false. by repeat split. Qed.

(** C4, amended. With a next-page control on the page, an href that is
    empty or starts (in any case) with "javascript:", "mailto:", "tel:" or
    "#" -- "javascript:void(0)", "#top" and "mailto:x@y.com" among them --
    adds no Search request; and when the listing cards have appeared, the
    href "/draper-homes?page=2" adds exactly one Search request, for
    https://www.utahrealestate.com/draper-homes?page=2, carrying the city
    of the page. *)
Theorem next_page_pushed_or_refused (request : Request) (page : Page)
    (visited : gset string) (href : string) :
  next_btn page = Some (Some href) →
  let city := search_city (url request) in
  let added := (extract_search_results request page visited).2 in
  (refused href → searches added = [])
  ∧ refused "javascript:void(0)" ∧ refused "#top" ∧ refused "mailto:x@y.com" ∧ refused ""
  ∧ (href = "/draper-homes?page=2" → cards_appear page = true →
     searches added
     = [new_request "https://www.utahrealestate.com/draper-homes?page=2" None {[ "city" := city ]}]).
Proof.
  intros Hn city added. subst added. unfold extract_search_results. fold city.
  split; [|split; [apply refused_examples|split; [apply refused_examples|
           split; [apply refused_examples|split; [apply refused_examples|]]]]].
  - intros Hr. destruct (cards_appear page); cbn [snd]; [|done].
    unfold searches. rewrite filter_app. fold (searches (claim_cards city (cards page) visited).2).
    by rewrite searches_claim_cards, (next_page_refused _ _ href).
  - intros -> ->. cbn [snd].
    unfold searches. rewrite filter_app. fold (searches (claim_cards city (cards page) visited).2).
    rewrite searches_claim_cards. unfold next_page.
    rewrite (pagination_slash city page "draper-homes?page=2" Hn eq_refl).
    by rewrite filter_cons_True by reflexivity.
Qed.

Lemma next_page_pushed_or_refused_witness :
  searches (extract_search_results
              (new_request "https://www.utahrealestate.com/draper-homes" None ∅)
              (results_page true ["2084421"] (Some (Some "/draper-homes?page=2"))) ∅).2
  = [new_request "https://www.utahrealestate.com/draper-homes?page=2" None {[ "city" := "draper" ]}]
  ∧ searches (extract_search_results
                (new_request "https://www.utahrealestate.com/draper-homes" None ∅)
                (results_page true ["2084421"] (Some (Some "#top"))) ∅).2 = [].
Proof.
  split.
  - apply (next_page_pushed_or_refused
             (new_request "https://www.utahrealestate.com/draper-homes" None ∅)
             (results_page true ["2084421"] (Some (Some "/draper-homes?page=2"))) ∅
             "/draper-homes?page=2"); reflexivity.
  - apply (next_page_pushed_or_refused
             (new_request "https://www.utahrealestate.com/draper-homes" None ∅)
             (results_page true ["2084421"] (Some (Some "#top"))) ∅ "#top");
      [reflexivity | apply refused_examples].
Defined.

(** C4 as stated fails: on a page whose cards do not appear in time the
    handler returns before the pagination block, and the valid next-page
    link adds nothing. *)
Lemma next_page_lost_without_cards :
  ∃ request page visited,
    next_btn page = Some (Some "/draper-homes?page=2")
    ∧ cards_appear page = false
    ∧ (extract_search_results request page visited).2 = [].
Proof.
  exists (new_request "https://www.utahrealestate.com/draper-homes" None ∅),
         (results_page false [] (Some (Some "/draper-homes?page=2"))), ∅.
  by repeat split.
Qed.




(** ** One claim per identifier *)

Lemma detail_url_inj mls1 mls2 : detail_url mls1 = detail_url mls2 → mls1 = mls2.
Proof. unfold detail_url. apply String.app_inj. Qed.

(** What a turn of the card loop can do. *)
Lemma claim_card_cases city card visited :
  claim_card city card visited = (visited, [])
  ∨ ∃ mls, listno card = Reply (Some mls) ∧ mls ≠ "" ∧ (mls ∉ visited)
           ∧ (claim_card city card visited).1 = visited ∪ {[ mls ]}
           ∧ ((add_requests_ok card = false ∧ (claim_card city card visited).2 = [])
              ∨ (add_requests_ok card = true
                 ∧ (claim_card city card visited).2
                   = [new_request (detail_url mls) (Some "detail") {[ "city" := city ]}])).
Proof.
  unfold claim_card. destruct (listno card) as [[mls|]|]; [|by left..].
  destruct (bool_decide (mls = "")) eqn:H1; [by left|].
  destruct (bool_decide (mls ∈ visited)) eqn:H2; [by left|].
  apply bool_decide_eq_false in H1, H2. right. exists mls.
  destruct (add_requests_ok card); cbn; eauto 10.
Qed.

Lemma tasks_for_app mls l1 l2 : tasks_for mls (l1 ++ l2) = tasks_for mls l1 ++ tasks_for mls l2.
Proof. apply filter_app. Qed.

Lemma tasks_for_detail mls m ud :
  tasks_for mls [new_request (detail_url m) (Some "detail") ud]
  = if bool_decide (m = mls) then [new_request (detail_url m) (Some "detail") ud] else [].
Proof.
  unfold tasks_for. case_bool_decide as Hm.
  - subst. rewrite filter_cons_True; [done|]. unfold detail_task_for. cbn.
    by rewrite !bool_decide_eq_true_2.
  - rewrite filter_cons_False; [done|]. unfold detail_task_for. cbn.
    rewrite bool_decide_eq_true_2 by done. cbn.
    rewrite bool_decide_eq_false_2; [done|]. by intros ?%detail_url_inj.
Qed.

Lemma tasks_for_none mls (l : list Request) :
  (∀ r, r ∈ l → label r = None) → tasks_for mls l = [].
Proof.
  unfold tasks_for. induction l as [|r l IH]; intros H; [done|].
  rewrite filter_cons_False.
  - apply IH. intros r' Hr'. apply H. by right.
  - unfold detail_task_for. rewrite (H r) by left. done.
Qed.


Lemma tasks_for_next_page mls city page : tasks_for mls (next_page city page) = [].
Proof. apply tasks_for_none. intros r Hr. by apply next_page_city in Hr as [? _]. Qed.

(** ** The requests held back *)

Lemma held_by_app hs1 hs2 : held_by (hs1 ++ hs2) = held_by hs1 ++ held_by hs2.
Proof. induction hs1 as [|h hs1 IH]; cbn; [done|]. by rewrite IH, app_assoc. Qed.

Lemma held_by_delete hs j h :
  hs !! j = Some h → held_by hs ≡ₚ sr_added h ++ held_by (delete j hs).
Proof.
  intros H. rewrite <- (take_drop_middle hs j h H) at 1.
  rewrite delete_take_drop, !held_by_app. cbn [held_by]. solve_Permutation.
Qed.

Lemma held_by_insert hs j h h' :
  hs !! j = Some h → held_by (<[ j := h' ]> hs) ≡ₚ sr_added h' ++ held_by (delete j hs).
Proof.
  intros H. rewrite insert_take_drop by (by eapply lookup_lt_Some).
  rewrite delete_take_drop, !held_by_app. cbn [held_by]. solve_Permutation.
Qed.

(** How a move changes the set, the history of the queue and what is held
    back. *)
Lemma step_history m c c' :
  step m c = Some c' →
  (visited_mls c' = visited_mls c ∧ added c' = added c ∧ held c' = held c)
  ∨ (∃ j h card rest,
       m = Resume j ∧ running c !! j = Some h ∧ sr_cards h = card :: rest
       ∧ visited_mls c' = (claim_card (sr_city h) card (visited_mls c)).1
       ∧ added c' = added c ∧ queue c' = queue c
       ∧ held c' ≡ₚ held c ++ (claim_card (sr_city h) card (visited_mls c)).2)
  ∨ (∃ j h out,
       m = Resume j ∧ running c !! j = Some h ∧ sr_cards h = []
       ∧ pagination (sr_city h) (sr_page h) = Reply out
       ∧ visited_mls c' = visited_mls c
       ∧ added c' = added c ++ sr_added h ++ out
       ∧ queue c' = queue c ++ sr_added h ++ out
       ∧ held c ≡ₚ sr_added h ++ held c')
  ∨ (∃ j h,
       (m = Resume j ∨ m = CutOff j) ∧ running c !! j = Some h
       ∧ visited_mls c' = visited_mls c ∧ added c' = added c
       ∧ queue c' = queue c ++ retry (sr_request h)
       ∧ held c ≡ₚ sr_added h ++ held c').
Proof.
  destruct m as [i rss page|i|j|j]; cbn [step].
  - destruct (queue c !! i) as [request|]; [|discriminate]. cbn [mbind option_bind].
    destruct (check_memory rss); [|destruct (is_detail request); [|destruct (cards_appear page)]];
      intros [= <-]; left; unfold held; fields; try done.
    split; [done|]. split; [done|]. rewrite held_by_app. cbn. by rewrite app_nil_r.
  - destruct (queue c !! i) as [request|]; [|discriminate]. cbn [mbind option_bind].
    intros [= <-]. by left.
  - destruct (running c !! j) as [h|] eqn:Hh; [|discriminate]. cbn [mbind option_bind].
    destruct (sr_cards h) as [|card rest] eqn:Hc.
    + destruct (pagination (sr_city h) (sr_page h)) as [out|] eqn:Hp; intros [= <-]; right; right.
      * left. exists j, h, out. unfold held. fields. repeat (split; [done|]).
        by apply held_by_delete.
      * right. exists j, h. unfold held. fields. split; [by left|]. repeat (split; [done|]).
        by apply held_by_delete.
    + intros [= <-]. right. left. exists j, h, card, rest. unfold held. fields.
      repeat (split; [done|]).
      rewrite (held_by_insert _ j h) by done. cbn [sr_added].
      rewrite (held_by_delete _ j h Hh). solve_Permutation.
  - destruct (running c !! j) as [h|] eqn:Hh; [|discriminate]. cbn [mbind option_bind].
    intros [= <-]. right. right. right. exists j, h. unfold held. fields.
    split; [by right|]. repeat (split; [done|]). by apply held_by_delete.
Qed.





(** ** One row per identifier *)

Lemma one_each_perm visited l l' : l ≡ₚ l' → one_each visited l → one_each visited l'.
Proof.
  intros Hp [Hn Hm]. split; [by rewrite <- Hp|]. intros u Hu. apply Hm. by rewrite Hp.
Qed.

Lemma one_each_tail visited x l : one_each visited (x :: l) → one_each visited l.
Proof.
  intros [Hn Hm]. split; [by apply NoDup_cons in Hn as [_ ?]|].
  intros u Hu. apply Hm. by right.
Qed.

Lemma one_each_mono (visited visited' : gset string) l :
  visited ⊆ visited' → one_each visited l → one_each visited' l.
Proof.
  intros Hv [Hn Hm]. split; [done|]. intros u (mls & ? & ? & ?)%Hm. exists mls. set_solver.
Qed.

Lemma one_each_fresh (visited : gset string) l mls :
  one_each visited l → mls ∉ visited → Str.has_char mls "/" = false →
  one_each (visited ∪ {[ mls ]}) (detail_url mls :: l).
Proof.
  intros [Hn Hm] Hv Hs. split.
  - apply NoDup_cons. split; [|done].
    intros (m' & ->%detail_url_inj & ? & _)%Hm. done.
  - intros u [->|Hu]%elem_of_cons.
    + exists mls. set_solver.
    + apply Hm in Hu as (m' & ? & ? & ?). exists m'. set_solver.
Qed.

Lemma detail_urls_app q1 q2 : detail_urls (q1 ++ q2) = detail_urls q1 ++ detail_urls q2.
Proof. unfold detail_urls. by rewrite filter_app, fmap_app. Qed.

Lemma detail_urls_single r : detail_urls [r] = if is_detail r then [url r] else [].
Proof.
  unfold detail_urls. destruct (is_detail r) eqn:E.
  - by rewrite filter_cons_True.
  - rewrite filter_cons_False; [done|]. by rewrite E.
Qed.

Lemma detail_urls_delete q i r :
  q !! i = Some r → detail_urls q ≡ₚ detail_urls [r] ++ detail_urls (delete i q).
Proof.
  intros H. rewrite <- detail_urls_app. unfold detail_urls.
  by rewrite (delete_Permutation q i r H) at 1.
Qed.

Lemma detail_urls_retry r : detail_urls (retry r) = detail_urls [r] ∨ detail_urls (retry r) = [].
Proof. unfold retry. destruct (_ <? _); [left | right]; [|done]. by rewrite !detail_urls_single. Qed.

Lemma detail_urls_next_page city page :
  detail_urls (next_page city page) = detail_urls (next_page "" page).
Proof.
  unfold next_page, pagination. destruct (next_btn page) as [[href|]|]; [|done..].
  destruct (_ && _); [|done]. unfold from_url. destruct (url_accepted _ _); [|done].
  by rewrite !detail_urls_single.
Qed.

Lemma next_page_pagination city page out : pagination city page = Reply out → next_page city page = out.
Proof. intros H. unfold next_page. by rewrite H. Qed.

Lemma detail_urls_perm l l' : l ≡ₚ l' → detail_urls l ≡ₚ detail_urls l'.
Proof. intros H. unfold detail_urls. by rewrite H. Qed.

Lemma one_each_sub visited l l' : l' ⊆+ l → one_each visited l → one_each visited l'.
Proof.
  intros Hs [Hn Hm]. split.
  - apply submseteq_Permutation in Hs as [k Hk]. rewrite Hk in Hn.
    by apply NoDup_app in Hn as [? _].
  - intros u Hu. apply Hm. by eapply elem_of_submseteq.
Qed.

Lemma detail_urls_none q : forallb (λ r, negb (is_detail r)) q = true → detail_urls q = [].
Proof.
  induction q as [|r q IH]; cbn [forallb]; [done|]. intros [Hr Hq]%andb_true_iff.
  change (r :: q) with ([r] ++ q). rewrite detail_urls_app, detail_urls_single, (IH Hq).
  by destruct (is_detail r).
Qed.

Lemma row_mls_detail request page :
  row_mls (csv_row (extract_detail request page)) = url_mls (url request).
Proof. reflexivity. Qed.

Lemma sink_ok_requeue (visited : gset string) q i r w :
  q !! i = Some r →
  one_each visited (detail_urls q ++ w) →
  one_each visited (detail_urls (delete i q ++ retry r) ++ w).
Proof.
  intros Hq Ho. apply (one_each_perm _ _ _ (Permutation_app_tail _ (detail_urls_delete q i r Hq))) in Ho.
  rewrite detail_urls_app. destruct (detail_urls_retry r) as [-> | ->].
  - eapply one_each_perm; [|done]. rewrite <- !(assoc_L (++)).
    rewrite (Permutation_app_swap_app (detail_urls (delete i q))). done.
  - rewrite app_nil_r. rewrite detail_urls_single in Ho.
    destruct (is_detail r); [|done]. by apply one_each_tail in Ho.
Qed.

Lemma written_after_append request page rows :
  detail_url <$> (row_mls <$> append_to_csv (extract_detail request page) rows)
  = (detail_url <$> (row_mls <$> rows)) ++ [detail_url (url_mls (url request))].
Proof. unfold append_to_csv. rewrite !fmap_app. reflexivity. Qed.

Lemma plain_run_parts h :
  plain_run h = true →
  is_detail (sr_request h) = false
  ∧ forallb plain_card (sr_cards h) = true
  ∧ forallb (λ r, negb (is_detail r)) (next_page "" (sr_page h)) = true.
Proof.
  unfold plain_run. intros [[H1 H2]%andb_true_iff H3]%andb_true_iff.
  by apply negb_true_iff in H1.
Qed.

Lemma sink_ok_step m c c' :
  step m c = Some c' → plain_move m = true → sink_ok c → sink_ok c'.
Proof.
  intros Hs Hp [Ho Hr]. unfold sink_ok, written, held in *.
  destruct m as [i rss page|i|j|j]; cbn [step] in Hs.
  - destruct (queue c !! i) as [request|] eqn:Hq; [|discriminate]. cbn [mbind option_bind] in Hs.
    destruct (check_memory rss).
    { inversion Hs; subst c'; clear Hs. fields. split; [|done]. by apply sink_ok_requeue. }
    pose proof (one_each_perm _ _ _
      (Permutation_app_tail _ (detail_urls_delete _ i request Hq)) Ho) as Ho'.
    rewrite detail_urls_single in Ho'.
    destruct (is_detail request) eqn:Hd.
    + inversion Hs; subst c'; clear Hs. fields. split; [|done].
      rewrite written_after_append.
      destruct (proj2 Ho' (url request)) as (mls & Hu & Hv & Hsl); [by left|].
      rewrite Hu, (url_mls_detail_url mls Hsl), <- Hu.
      eapply one_each_perm; [|exact Ho']. solve_Permutation.
    + cbn [app] in Ho'. cbn [plain_move] in Hp. unfold plain_page in Hp.
      apply andb_true_iff in Hp as [Hp1 Hp2].
      destruct (cards_appear page); inversion Hs; subst c'; clear Hs; fields;
        [|by split].
      split.
      * rewrite held_by_app. cbn [held_by sr_added]. by rewrite !app_nil_r.
      * apply Forall_app. split; [done|]. apply Forall_singleton.
        unfold plain_run. cbn [sr_request sr_cards sr_page]. by rewrite Hd, Hp2, andb_true_r.
  - destruct (queue c !! i) as [request|] eqn:Hq; [|discriminate]. cbn [mbind option_bind] in Hs.
    inversion Hs; subst c'; clear Hs. fields. split; [|done]. by apply sink_ok_requeue.
  - destruct (running c !! j) as [h|] eqn:Hh; [|discriminate]. cbn [mbind option_bind] in Hs.
    pose proof (proj1 (Forall_lookup _ _) Hr j h Hh) as Hplain. cbn beta in Hplain.
    apply plain_run_parts in Hplain as (Hp1 & Hp2 & Hp3).
    pose proof (detail_urls_perm _ _ (held_by_delete _ j h Hh)) as Hheld.
    rewrite detail_urls_app in Hheld.
    destruct (sr_cards h) as [|card rest] eqn:Hc.
    + destruct (pagination (sr_city h) (sr_page h)) as [out|] eqn:Hpag;
        inversion Hs; subst c'; clear Hs; fields; (split; [|by apply Forall_delete]).
      * rewrite !detail_urls_app, <- (next_page_pagination _ _ _ Hpag).
        rewrite detail_urls_next_page, (detail_urls_none _ Hp3).
        eapply one_each_perm; [|exact Ho]. rewrite Hheld. solve_Permutation.
      * rewrite detail_urls_app.
        replace (detail_urls (retry (sr_request h))) with (@nil string).
        2:{ destruct (detail_urls_retry (sr_request h)) as [-> | ->]; [|done].
            by rewrite detail_urls_single, Hp1. }
        eapply one_each_sub; [|exact Ho]. rewrite Hheld. solve_submseteq.
    + inversion Hs; subst c'; clear Hs; fields.
      cbn [forallb] in Hp2. apply andb_true_iff in Hp2 as [Hcard Hrest]. split.
      * pose proof (detail_urls_perm _ _
          (held_by_insert _ j h
             {| sr_request := sr_request h; sr_city := sr_city h; sr_cards := rest;
                sr_page := sr_page h;
                sr_added := sr_added h ++ (claim_card (sr_city h) card (visited_mls c)).2 |}
             Hh)) as Hnew.
        cbn [sr_added] in Hnew. rewrite !detail_urls_app in Hnew.
        destruct (claim_card_cases (sr_city h) card (visited_mls c))
          as [E|(mls & Hl & _ & Hfresh & E1 & [[_ E2]|[_ E2]])].
        -- rewrite E in *. cbn [fst snd] in *.
           eapply one_each_perm; [|exact Ho]. rewrite Hnew, Hheld.
           change (detail_urls []) with (@nil string). solve_Permutation.
        -- rewrite E1, E2 in *.
           eapply one_each_mono; [apply union_subseteq_l|].
           eapply one_each_perm; [|exact Ho]. rewrite Hnew, Hheld.
           change (detail_urls []) with (@nil string). solve_Permutation.
        -- rewrite E1, E2 in *. rewrite detail_urls_single in Hnew.
           replace (is_detail _) with true in Hnew
             by (unfold is_detail; cbn [label new_request]; by rewrite orb_true_r).
           cbn [url new_request] in Hnew. unfold plain_card in Hcard. rewrite Hl in Hcard.
           apply negb_true_iff in Hcard.
           eapply one_each_perm; [|by apply (one_each_fresh _ _ mls Ho)].
           rewrite Hnew, Hheld. solve_Permutation.
      * apply Forall_insert; [done|]. unfold plain_run. cbn [sr_request sr_cards sr_page].
        by rewrite Hp1, Hrest, Hp3.
  - destruct (running c !! j) as [h|] eqn:Hh; [|discriminate]. cbn [mbind option_bind] in Hs.
    pose proof (proj1 (Forall_lookup _ _) Hr j h Hh) as Hplain. cbn beta in Hplain.
    apply plain_run_parts in Hplain as (Hp1 & Hp2 & Hp3).
    pose proof (detail_urls_perm _ _ (held_by_delete _ j h Hh)) as Hheld.
    rewrite detail_urls_app in Hheld.
    inversion Hs; subst c'; clear Hs. fields. split; [|by apply Forall_delete].
    rewrite detail_urls_app.
    replace (detail_urls (retry (sr_request h))) with (@nil string).
    2:{ destruct (detail_urls_retry (sr_request h)) as [-> | ->]; [|done].
        by rewrite detail_urls_single, Hp1. }
    eapply one_each_sub; [|exact Ho]. rewrite Hheld. solve_submseteq.
Qed.

Lemma sink_ok_run moves c c' :
  run moves c = Some c' → forallb plain_move moves = true → sink_ok c → sink_ok c'.
Proof.
  revert c. induction moves as [|m moves IH]; intros c; cbn.
  - by intros [= <-].
  - destruct (step m c) as [c1|] eqn:Hs; [|discriminate]. cbn.
    intros Hr [Hm Hms]%andb_true_iff Hc. eapply IH; [done..|]. by eapply sink_ok_step.
Qed.

Lemma sink_ok_init : sink_ok main_init.
Proof.
  split; [|by apply Forall_nil]. split; [|by intros u ?%elem_of_nil]. apply NoDup_nil_2.
Qed.



(** ** C1 *)

Lemma resume_card c j h card rest :
  running c !! j = Some h → sr_cards h = card :: rest →
  step (Resume j) c
  = Some {| visited_mls := (claim_card (sr_city h) card (visited_mls c)).1;
            queue := queue c;
            running := <[ j := {| sr_request := sr_request h; sr_city := sr_city h;
                                  sr_cards := rest; sr_page := sr_page h;
                                  sr_added := sr_added h
                                              ++ (claim_card (sr_city h) card (visited_mls c)).2
                               |} ]> (running c);
            csv_rows := csv_rows c;
            added := added c |}.
Proof. intros Hh Hc. cbn [step]. rewrite Hh. cbn [mbind option_bind]. by rewrite Hc. Qed.


Lemma run_after_plain : run plain_moves main_init = Some (after plain_moves).
Proof. vm_compute. reflexivity. Qed.



(** ** C5 *)

Lemma csv_row_cells (data : gmap string string) i k :
  CSV_HEADERS !! i = Some k → csv_row data !! i = Some (default "" (data !! k)).
Proof. intros H. unfold csv_row. by rewrite list_lookup_fmap, H. Qed.

Lemma bare_page_row request page :
  (∀ selector, missing page selector) →
  Re.search Re.YEAR_RE (content page) = None →
  Re.search Re.LOT_RE (content page) = None →
  Re.search Re.GARAGE_RE (content page) = None →
  csv_row (extract_detail request page)
  = [ url_mls (url request); ""; ""; ""; ""; ""; ""; ""; ""; "";
      default "unknown" (user_data request !! "city") ].
Proof.
  intros Hm Hy Hl Hg. unfold extract_detail, search_or_empty.
  rewrite Hy, Hl, Hg. rewrite !safe_text_missing by done. reflexivity.
Qed.

(** C5, amended. The record of a detail page has the eleven fields and no
    other, each a string, and its row has eleven cells, the fields in
    header order.  A field whose element gives no text, or whose pattern
    is not found, is the empty string, whatever happens to the other
    fields; on a page where every element is missing and no pattern is
    found the row is the mls, nine empty strings and the city.  The mls is
    the identifier, hence non-empty, when the request is the Detail request
    of a non-empty identifier with no "/" in it. *)
Theorem record_has_every_field (request : Request) (page : Page) :
  let data := extract_detail request page in
  dom data = list_to_set CSV_HEADERS
  ∧ length (csv_row data) = 11
  ∧ (∀ i k, CSV_HEADERS !! i = Some k →
            ∃ v, data !! k = Some v ∧ csv_row data !! i = Some v)
  ∧ (∀ selector, missing page selector → safe_text page selector = "")
  ∧ (missing page ".prop-details-overview li span" → data !! "price" = Some "")
  ∧ (missing page ".prop-details-overview li:nth-of-type(2) span" → data !! "beds" = Some "")
  ∧ (missing page ".prop-details-overview li:nth-of-type(3) span" → data !! "baths" = Some "")
  ∧ (missing page ".prop-details-overview li:nth-of-type(4) span" → data !! "sqft" = Some "")
  ∧ (missing page ".prop___overview h2" → missing page "#location-data" →
     data !! "address" = Some "")
  ∧ (missing page ".agent-name, [class*='agent']" → data !! "agent" = Some "")
  ∧ (Re.search Re.YEAR_RE (content page) = None → data !! "year_built" = Some "")
  ∧ (Re.search Re.LOT_RE (content page) = None → data !! "lot_size" = Some "")
  ∧ (Re.search Re.GARAGE_RE (content page) = None → data !! "garage" = Some "")
  ∧ ((∀ selector, missing page selector) →
     Re.search Re.YEAR_RE (content page) = None →
     Re.search Re.LOT_RE (content page) = None →
     Re.search Re.GARAGE_RE (content page) = None →
     csv_row data
     = [ url_mls (url request); ""; ""; ""; ""; ""; ""; ""; ""; "";
         default "unknown" (user_data request !! "city") ])
  ∧ (∀ mls, url request = detail_url mls → mls ≠ "" → Str.has_char mls "/" = false →
            data !! "mls" = Some mls).
Proof.
  intros data. split; [apply data_dom|]. split; [done|]. split.
  { intros i k Hk. rewrite (csv_row_cells _ i k Hk).
    assert (k ∈ dom data) as [v Hv]%elem_of_dom.
    { subst data. rewrite data_dom. apply elem_of_list_to_set. by eapply list_elem_of_lookup_2. }
    exists v. by rewrite Hv. }
  split; [apply safe_text_missing|].
  repeat match goal with |- (missing _ _ → _) ∧ _ => split end.
  - intros H. subst data. by rewrite data_price, safe_text_missing.
  - intros H. subst data. by rewrite data_beds, safe_text_missing.
  - intros H. subst data. by rewrite data_baths, safe_text_missing.
  - intros H. subst data. by rewrite data_sqft, safe_text_missing.
  - intros H1 H2. subst data. by rewrite data_address, !safe_text_missing.
  - intros H. subst data. unfold extract_detail.
    by rewrite (safe_text_missing _ ".agent-name, [class*='agent']" H).
  - split; [|split; [|split; [|split]]].
    + intros H. subst data. unfold extract_detail, search_or_empty. by rewrite H.
    + intros H. subst data. unfold extract_detail, search_or_empty. by rewrite H.
    + intros H. subst data. unfold extract_detail, search_or_empty. by rewrite H.
    + apply bare_page_row.
    + intros mls Hu _ Hs. subst data. by rewrite data_mls, Hu, url_mls_detail_url.
Qed.

Lemma record_has_every_field_witness :
  csv_row (extract_detail
             (new_request (detail_url "2084421") (Some "detail") {[ "city" := "draper" ]})
             (detail_page [] "<html></html>"))
  = [ "2084421"; ""; ""; ""; ""; ""; ""; ""; ""; ""; "draper" ]
  ∧ extract_detail
      (new_request (detail_url "2084421") (Some "detail") {[ "city" := "draper" ]})
      (detail_page [] "<html></html>") !! "mls" = Some "2084421".
Proof.
  destruct (record_has_every_field
              (new_request (detail_url "2084421") (Some "detail") {[ "city" := "draper" ]})
              (detail_page [] "<html></html>"))
    as (_ & _ & _ & _ & _ & _ & _ & _ & _ & _ & _ & _ & _ & Hrow & Hmls).
  split.
  - rewrite Hrow; [reflexivity | by intros selector | reflexivity..].
  - apply Hmls; [reflexivity | discriminate | reflexivity].
Defined.

(** C5 as stated fails: the identifier "/" is claimed like any other, and
    the record of its detail page carries an empty mls. *)
Lemma empty_mls_written :
  ∃ moves c, run moves main_init = Some c ∧ written c = [""].
Proof. exists empty_mls_moves, (after empty_mls_moves). split; vm_compute; reflexivity. Qed.

(** ** C2 *)

(** [check_memory] raises exactly when the resident set is above nine
    tenths of the ceiling, and returns the gigabytes measured otherwise. *)
Lemma check_memory_threshold (rss : Z) :
  let mem_gb := (inject_Z rss / inject_Z (1024 ^ 3))%Q in
  let usage_ratio := (mem_gb / MAX_MEMORY_GB)%Q in
  (check_memory rss = inl MemoryError ↔ (0.9 < usage_ratio)%Q)
  ∧ (check_memory rss = inr mem_gb ↔ (usage_ratio <= 0.9)%Q)
  ∧ ((0.9 < usage_ratio)%Q ↔ (6764573491 < rss)%Z).
Proof.
  cbn zeta. unfold check_memory.
  assert (Hq : ∀ a, (MAX_MEMORY_GB * 0.9 < a)%Q ↔ (0.9 < a / MAX_MEMORY_GB)%Q).
  { intros [n d]. unfold Qlt, Qdiv, Qmult, Qinv, MAX_MEMORY_GB. cbn. lia. }
  assert (Hz : (0.9 < inject_Z rss / inject_Z (1024 ^ 3) / MAX_MEMORY_GB)%Q
               ↔ (6764573491 < rss)%Z).
  { change (1024 ^ 3)%Z with 1073741824%Z.
    unfold Qlt, Qdiv, Qmult, Qinv, MAX_MEMORY_GB, inject_Z. cbn. lia. }
  split; [|split; [|done]].
  - destruct (Qlt_le_dec _ _) as [H|H].
    + split; [intros _; by apply Hq | done].
    + split; [discriminate|]. intros H'%Hq. by apply Qle_not_lt in H.
  - destruct (Qlt_le_dec _ _) as [H|H].
    + split; [discriminate|]. intros H'. apply Hq in H. by apply Qle_not_lt in H'.
    + split; [|done]. intros _. apply Qnot_lt_le. intros H'%Hq. by apply Qle_not_lt in H.
Qed.

Lemma check_memory_exn rss e : check_memory rss = inl e → e = MemoryError.
Proof. unfold check_memory. destruct (Qlt_le_dec _ _); [by intros [= <-] | discriminate]. Qed.

Lemma router_handler_memory rss request page visited rows :
  check_memory rss = inl MemoryError →
  router_handler rss request page visited rows = inl MemoryError.
Proof. intros H. unfold router_handler. by rewrite H. Qed.

(** C2, at 6764573492 bytes with thirteen requests waiting.  The ratio is
    above 0.9 and [check_memory] raises; the exception leaves
    [router_handler] before anything is extracted, and that is all the
    script does about it: the request goes back to the queue for a retry
    and the crawl goes on to fetch other requests and to write a row. *)
Theorem memory_error_is_one_failed_request :
  check_memory over_limit = inl MemoryError
  ∧ (∀ request page visited rows,
       router_handler over_limit request page visited rows = inl MemoryError)
  ∧ (∃ c, run (take 1 memory_moves) main_init = Some c
          ∧ length (queue c) = 13
          ∧ (retry_count <$> last (queue c)) = Some 1
          ∧ (url <$> last (queue c)) = Some "https://www.utahrealestate.com/draper-homes")
  ∧ (∃ c, run memory_moves main_init = Some c
          ∧ written c = ["2084421"]
          ∧ length (queue c) = 12).
Proof.
  split; [reflexivity|]. split; [intros; by apply router_handler_memory|]. split.
  - exists (after (take 1 memory_moves)). split; [vm_compute; reflexivity|]. by vm_compute.
  - exists (after memory_moves). split; [vm_compute; reflexivity|]. by vm_compute.
Qed.

(** ** A handler that is not interrupted *)

Lemma claim_cards_nil city visited : claim_cards city [] visited = (visited, []).
Proof. done. Qed.

(** A search handler that takes all its turns in a row does what
    [extract_search_results] says, and what it has handed to
    [add_requests] reaches the queue unless the pagination block raises. *)
Lemma resume_to_the_end cs : ∀ c rs h,
  running c = rs ++ [h] → sr_cards h = cs →
  run (replicate (S (length cs)) (Resume (length rs))) c
  = Some (match pagination (sr_city h) (sr_page h) with
          | Reply out =>
              {| visited_mls := (claim_cards (sr_city h) cs (visited_mls c)).1;
                 queue := queue c ++ (sr_added h
                                      ++ (claim_cards (sr_city h) cs (visited_mls c)).2) ++ out;
                 running := rs;
                 csv_rows := csv_rows c;
                 added := added c ++ (sr_added h
                                      ++ (claim_cards (sr_city h) cs (visited_mls c)).2) ++ out |}
          | Raises =>
              {| visited_mls := (claim_cards (sr_city h) cs (visited_mls c)).1;
                 queue := queue c ++ retry (sr_request h);
                 running := rs;
                 csv_rows := csv_rows c;
                 added := added c |}
          end).
Proof.
  induction cs as [|card cs IH]; intros c rs h Hr Hc.
  - cbn [length replicate run step]. rewrite Hr, list_lookup_middle by done.
    cbn [mbind option_bind]. rewrite Hc.
    destruct (pagination (sr_city h) (sr_page h)); cbn [mbind option_bind run];
      rewrite claim_cards_nil; cbn [fst snd]; by rewrite delete_middle, !app_nil_r.
  - replace (replicate (S (length (card :: cs))) (Resume (length rs)))
      with (Resume (length rs) :: replicate (S (length cs)) (Resume (length rs))) by done.
    cbn [run]. rewrite (resume_card c (length rs) h card cs).
    2: { rewrite Hr. by apply list_lookup_middle. }
    2: done.
    cbn [mbind option_bind].
    rewrite (IH _ rs {| sr_request := sr_request h; sr_city := sr_city h;
                        sr_cards := cs; sr_page := sr_page h;
                        sr_added := sr_added h
                                    ++ (claim_card (sr_city h) card (visited_mls c)).2 |}).
    + fields. cbn [sr_city sr_page sr_added sr_request]. rewrite claim_cards_cons. cbn [fst snd].
      destruct (pagination (sr_city h) (sr_page h)); [|done].
      by rewrite <- !(assoc_L (++)).
    + fields. rewrite Hr. by rewrite insert_app_r_alt, Nat.sub_diag by lia.
    + done.
Qed.

(** The crawl's moves agree with [router_handler]: fetching a request and
    letting its handler run on without a break leaves what the handler
    returns. *)
Lemma handler_without_a_break c i rss request page visited' out rows' :
  queue c !! i = Some request →
  router_handler rss request page (visited_mls c) (csv_rows c) = inr (visited', out, rows') →
  run (Fetch i rss page ::
       (if is_detail request || negb (cards_appear page) then []
        else replicate (S (length (cards page))) (Resume (length (running c))))) c
  = Some {| visited_mls := visited'; queue := delete i (queue c) ++ out;
            running := running c; csv_rows := rows'; added := added c ++ out |}.
Proof.
  intros Hq. unfold router_handler. cbn [run step]. rewrite Hq. cbn [mbind option_bind].
  destruct (check_memory rss) as [e|mem]; [discriminate|].
  destruct (is_detail request).
  - intros [= <- <- <-]. cbn [orb mbind option_bind run]. by rewrite !app_nil_r.
  - unfold extract_search_results_raises, pagination_raises, extract_search_results.
    destruct (cards_appear page).
    + cbn [andb orb negb mbind option_bind].
      destruct (pagination "" page) as [out0|] eqn:Hp0; [|discriminate].
      intros [= <- <- <-].
      rewrite (resume_to_the_end (cards page) _ (running c)
                 {| sr_request := request; sr_city := search_city (url request);
                    sr_cards := cards page; sr_page := page; sr_added := [] |}) by done.
      fields. cbn [sr_city sr_page sr_added fst snd app]. unfold next_page.
      destruct (pagination (search_city (url request)) page) as [out1|] eqn:Hp1; [done|].
      exfalso. revert Hp0 Hp1. unfold pagination.
      destruct (next_btn page) as [[href|]|]; [|done..]. destruct (_ && _); [|done].
      unfold from_url. by destruct (url_accepted _ _).
    + intros [= <- <- <-]. cbn [orb negb mbind option_bind run]. by rewrite !app_nil_r.
Qed.

(** And when the pagination block raises: the set keeps what the cards
    have put into it, nothing reaches the queue but the request of the
    page, put back. *)
Lemma handler_that_raises c i rss request page :
  queue c !! i = Some request →
  router_handler rss request page (visited_mls c) (csv_rows c) = inl ValidationError →
  run (Fetch i rss page :: replicate (S (length (cards page))) (Resume (length (running c)))) c
  = Some {| visited_mls := (extract_search_results request page (visited_mls c)).1;
            queue := delete i (queue c) ++ retry request;
            running := running c; csv_rows := csv_rows c; added := added c |}.
Proof.
  intros Hq. unfold router_handler. cbn [run step]. rewrite Hq. cbn [mbind option_bind].
  destruct (check_memory rss) as [[]|mem] eqn:Hm; [discriminate| |].
  { exfalso. revert Hm. unfold check_memory. by destruct (Qlt_le_dec _ _). }
  destruct (is_detail request); [discriminate|].
  unfold extract_search_results_raises, pagination_raises, extract_search_results.
  destruct (cards_appear page); [|discriminate]. cbn [andb mbind option_bind].
  destruct (pagination "" page) as [out0|] eqn:Hp0; [discriminate|]. intros _.
  rewrite (resume_to_the_end (cards page) _ (running c)
             {| sr_request := request; sr_city := search_city (url request);
                sr_cards := cards page; sr_page := page; sr_added := [] |}) by done.
  fields. cbn [sr_city sr_page sr_added sr_request fst snd app].
  destruct (pagination (search_city (url request)) page) as [out1|] eqn:Hp1; [|done].
  exfalso. revert Hp0 Hp1. unfold pagination.
  destruct (next_btn page) as [[href|]|]; [|done..]. destruct (_ && _); [|done].
  unfold from_url. by destruct (url_accepted _ _).
Qed.

(** * Further properties of the script *)

(** ** What the matcher leaves in group 1 *)

Lemma taken_app a s : Re.taken (a +:+ s) (String.length a) = a.
Proof. induction a as [|c a IH]; cbn; [by destruct s | by rewrite IH]. Qed.

Lemma consumed_app a s : Re.consumed (a +:+ s) s = a.
Proof.
  unfold Re.consumed. rewrite sapp_length.
  replace (String.length a + String.length s - String.length s) with (String.length a) by lia.
  apply taken_app.
Qed.

Section MatcherCaptures.
Context {R : Type}.
Implicit Types (k : string → option string → option R).

Lemma run_captures fuel r s g k x :
  Re.run fuel r s g k = Some x →
  ∃ s1 s2 g', s = s1 +:+ s2 ∧ captures r s1 g g' ∧ k s2 g' = Some x.
Proof.
  revert r s g k x. induction fuel as [|f IH]; intros r s g k x H; [discriminate|].
  destruct r as [p| |r1 r2|r1 r2|r1|r1]; cbn in H.
  - destruct s as [|c s']; [discriminate|]. destruct (p c) eqn:Hp; [|discriminate].
    exists (String c ""), s', g. split_match; by constructor.
  - exists "", s, g. split_match; constructor.
  - apply IH in H as (a & s' & g1 & -> & Ha & H).
    apply IH in H as (b & s2 & g2 & -> & Hb & H).
    exists (a +:+ b), s2, g2. rewrite sapp_assoc. split_match; by econstructor.
  - destruct (Re.run f r1 s g k) as [y|] eqn:H1.
    + inversion H; subst y. apply IH in H1 as (a & s2 & g' & -> & Ha & H1).
      exists a, s2, g'. split_match; by apply captures_alt_l.
    + apply IH in H as (a & s2 & g' & -> & Ha & H).
      exists a, s2, g'. split_match; by apply captures_alt_r.
  - match type of H with match ?t with _ => _ end = _ => destruct t as [y|] eqn:H1 end.
    + inversion H; subst y. apply IH in H1 as (a & s' & g1 & -> & Ha & H1).
      match type of H1 with (if ?c then _ else _) = _ => destruct c eqn:Hlen end;
        [|discriminate].
      apply IH in H1 as (b & s2 & g2 & -> & Hb & H1).
      exists (a +:+ b), s2, g2. rewrite sapp_assoc. split_match.
      eapply captures_star_cons; [|done..].
      intros ->. apply Nat.ltb_lt in Hlen. cbn [String.append] in Hlen. lia.
    + exists "", s, g. split_match; constructor.
  - apply IH in H as (a & s2 & g' & -> & Ha & H).
    exists a, s2, (Some a). rewrite consumed_app in H. split_match; by econstructor.
Qed.
End MatcherCaptures.

Lemma search_captures r s m :
  Re.search r s = Some m →
  ∃ pre mid post, s = pre +:+ mid +:+ post ∧ captures r mid None m.
Proof.
  induction s as [|c s IH]; cbn [Re.search]; unfold Re.match_here.
  - destruct (Re.run _ _ _ _ _) eqn:H; [|discriminate]. intros [= <-].
    apply run_captures in H as (a & b & g' & Hs & Ha & [= <-]). by exists "", a, b.
  - destruct (Re.run _ _ _ _ _) eqn:H.
    + intros [= <-]. apply run_captures in H as (a & b & g' & Hs & Ha & [= <-]).
      by exists "", a, b.
    + intros (pre & mid & post & -> & Hm)%IH. by exists (String c pre), mid, post.
Qed.

Lemma captures_matches r s g g' : captures r s g g' → Re.matches r s.
Proof. induction 1; by econstructor. Qed.

Lemma captures_no_group r s g g' : has_group r = false → captures r s g g' → g' = g.
Proof.
  intros Hr Hc. induction Hc as [| |r1 r2 a b g g1 g2 _ IH1 _ IH2| | | |r a b g g1 g2 _ _ IH1 _ IH2|];
    cbn in Hr; try apply orb_false_iff in Hr as [Hr1 Hr2]; try done; auto.
  - by rewrite IH2, IH1.
  - by rewrite IH2, IH1.
Qed.

Lemma captures_seq_inv r1 r2 s g g' :
  captures (Re.Seq r1 r2) s g g' →
  ∃ a b g1, s = a +:+ b ∧ captures r1 a g g1 ∧ captures r2 b g1 g'.
Proof. inversion 1; subst. eauto 10. Qed.

Lemma captures_group_inv r s g g' :
  captures (Re.Group r) s g g' → g' = Some s ∧ Re.matches r s.
Proof. inversion 1; subst. split; [done|]. by eapply captures_matches. Qed.

(** A pattern without a group matches as [Re.matches] says and leaves the
    group alone. *)
Lemma captures_plain r s g g' :
  has_group r = false → captures r s g g' → Re.matches r s ∧ g' = g.
Proof. intros Hr Hc. split; [by eapply captures_matches | by eapply captures_no_group]. Qed.

Lemma has_group_lit p : has_group (Re.lit p) = false.
Proof. induction p; cbn; [done|]. by rewrite IHp. Qed.

Lemma has_group_lit_i p : has_group (Re.lit_i p) = false.
Proof. induction p; cbn; [done|]. by rewrite IHp. Qed.

(** The text of the group is part of the text matched. *)
Lemma captures_inside r s g g' :
  captures r s g g' → g' = g ∨ ∃ a d b, g' = Some d ∧ s = a +:+ d +:+ b.
Proof.
  induction 1 as [| |r1 r2 a b g g1 g2 _ IH1 _ IH2| | | |r a b g g1 g2 _ _ IH1 _ IH2|r a g g1 _ _];
    auto.
  - destruct IH2 as [->|(x & d & y & -> & ->)].
    + destruct IH1 as [->|(x & d & y & -> & ->)]; [by left|].
      right. exists x, d, (y +:+ b). by rewrite !sapp_assoc.
    + right. exists (a +:+ x), d, y. by rewrite !sapp_assoc.
  - destruct IH2 as [->|(x & d & y & -> & ->)].
    + destruct IH1 as [->|(x & d & y & -> & ->)]; [by left|].
      right. exists x, d, (y +:+ b). by rewrite !sapp_assoc.
    + right. exists (a +:+ x), d, y. by rewrite !sapp_assoc.
  - right. exists "", a, "". by rewrite sapp_nil_r.
Qed.

(** What [re.search] returns in group 1 stands in the text searched. *)
Lemma search_group_inside r s m :
  Re.search r s = Some m → Str.contains (Re.group1 m) s = true.
Proof.
  intros (pre & mid & post & -> & Hc)%search_captures. apply contains_spec.
  apply captures_inside in Hc as [->|(a & d & b & -> & ->)].
  - by exists "", (pre +:+ mid +:+ post).
  - exists (pre +:+ a), (b +:+ post). cbn. by rewrite !sapp_assoc.
Qed.

Lemma lstrip_all_chars f s : Str.lstrip f s = "" ↔ all_chars f s = true.
Proof.
  induction s as [|c s IH]; cbn; [done|]. destruct (f c); cbn; [done|]. split; discriminate.
Qed.

Lemma all_chars_not_slash s :
  all_chars (λ c, negb (bool_decide (c = "/"%char))) s = true ↔ Str.has_char s "/" = false.
Proof. rewrite <- lstrip_all_chars. apply lstrip_not_slash. Qed.

Lemma captures_CITY_RE mid m :
  captures Re.CITY_RE mid None m →
  ∃ slug, mid = "utahrealestate.com/" +:+ slug +:+ "-homes" ∧ m = Some slug
          ∧ slug ≠ "" ∧ Str.has_char slug "/" = false.
Proof.
  unfold Re.CITY_RE. intros (a & b & g1 & -> & Ha & Hb)%captures_seq_inv.
  apply captures_seq_inv in Hb as (slug & c & g2 & -> & Hs & Hc).
  apply captures_plain in Ha as [Ha ->]; [|apply has_group_lit].
  apply captures_plain in Hc as [Hc ->]; [|apply has_group_lit].
  apply captures_group_inv in Hs as [-> Hs].
  apply matches_lit in Ha as ->. apply matches_lit in Hc as ->.
  apply matches_plus_class in Hs as [Hne Hs]. apply lstrip_not_slash in Hs.
  by exists slug.
Qed.

(** X1. The city read from a search URL is never empty and never has a
    "/" in it: it is "unknown" when the URL has no
    [utahrealestate.com/<slug>-homes] in it, and otherwise it is such a
    slug, standing in the URL between "utahrealestate.com/" and "-homes".
    The city "unknown" does not tell the two apart: it is also the city of
    a URL whose slug is the word "unknown". *)
Theorem search_city_is_a_slug (u : string) :
  search_city u ≠ ""
  ∧ Str.has_char (search_city u) "/" = false
  ∧ (¬ has_city_slug u → search_city u = "unknown")
  ∧ (has_city_slug u →
     ∃ pre post, u = pre +:+ "utahrealestate.com/" +:+ search_city u +:+ "-homes" +:+ post)
  ∧ (search_city u = "unknown" →
     ¬ has_city_slug u
     ∨ ∃ pre post, u = pre +:+ "utahrealestate.com/unknown-homes" +:+ post)
  ∧ search_city "https://www.utahrealestate.com/unknown-homes" = "unknown".
Proof.
  unfold search_city at 1 2 3 4 5. destruct (Re.search Re.CITY_RE u) as [m|] eqn:E.
  - apply search_captures in E as (pre & mid & post & -> & Hc).
    apply captures_CITY_RE in Hc as (slug & -> & -> & Hne & Hs). cbn [Re.group1 default].
    split; [done|]. split; [done|]. split; [|split; [|split; [|by vm_compute]]].
    + intros []. exists pre, slug, post. by rewrite !sapp_assoc.
    + intros _. exists pre, post. by rewrite !sapp_assoc.
    + intros Hu. change (slug = "unknown") in Hu. subst slug.
      right. exists pre, post. by rewrite !sapp_assoc.
  - split; [done|]. split; [done|]. split; [done|]. split; [|split; [|by vm_compute]].
    + intros H%search_city_re. rewrite E in H. by destruct H.
    + intros _. left. intros H%search_city_re. rewrite E in H. by destruct H.
Qed.

Lemma has_city_slug_seed : has_city_slug "https://www.utahrealestate.com/west-valley-homes?page=4".
Proof. apply search_city_re. vm_compute. eauto. Qed.

Lemma search_city_is_a_slug_witness :
  search_city "https://www.utahrealestate.com/listing/2084421" = "unknown"
  ∧ ∃ pre post,
      "https://www.utahrealestate.com/west-valley-homes?page=4"
      = pre +:+ "utahrealestate.com/"
        +:+ search_city "https://www.utahrealestate.com/west-valley-homes?page=4"
        +:+ "-homes" +:+ post.
Proof.
  split.
  - destruct (search_city_is_a_slug "https://www.utahrealestate.com/listing/2084421")
      as (_ & _ & Hno & _).
    apply Hno, no_city_slug_in_listing_url.
  - destruct (search_city_is_a_slug "https://www.utahrealestate.com/west-valley-homes?page=4")
      as (_ & _ & _ & Hslug & _).
    apply Hslug, has_city_slug_seed.
Defined.

(** ** The fields found by pattern *)

Lemma matches_seq_inv r1 r2 s :
  Re.matches (Re.Seq r1 r2) s → ∃ a b, s = a +:+ b ∧ Re.matches r1 a ∧ Re.matches r2 b.
Proof. inversion 1; subst. eauto. Qed.

Lemma matches_alt_inv r1 r2 s : Re.matches (Re.Alt r1 r2) s → Re.matches r1 s ∨ Re.matches r2 s.
Proof. inversion 1; subst; auto. Qed.

Lemma matches_lit_i p m : Re.matches (Re.lit_i p) m → Str.lower m = Str.lower p.
Proof.
  revert m. induction p as [|c p IH]; intros m; cbn [Re.lit_i].
  - by inversion 1.
  - intros (a & b & -> & Ha & Hb)%matches_seq_inv. apply IH in Hb.
    inversion Ha as [? x Hx| | | | | | |]; subst. apply bool_decide_eq_true in Hx.
    cbn. by rewrite Hx, Hb.
Qed.

Lemma matches_times_class n f m :
  Re.matches (Re.Times n (Re.Chr f)) m → String.length m = n ∧ all_chars f m = true.
Proof.
  revert m. induction n as [|n IH]; intros m; cbn [Re.Times].
  - by inversion 1.
  - intros (a & b & -> & Ha & Hb)%matches_seq_inv. apply IH in Hb as [<- Hb].
    inversion Ha as [? x Hx| | | | | | |]; subst. cbn. by rewrite Hx, Hb.
Qed.

Lemma matches_plus_chars f m :
  Re.matches (Re.Plus (Re.Chr f)) m → m ≠ "" ∧ all_chars f m = true.
Proof. intros [? ?]%matches_plus_class. by rewrite <- lstrip_all_chars. Qed.

Lemma matches_star_chars f m : Re.matches (Re.Star (Re.Chr f)) m → all_chars f m = true.
Proof. intros ?%matches_star_class. by rewrite <- lstrip_all_chars. Qed.

Lemma captures_skip_head r1 r2 s g m :
  has_group r1 = false → captures (Re.Seq r1 r2) s g m →
  ∃ a b, s = a +:+ b ∧ Re.matches r1 a ∧ captures r2 b g m.
Proof.
  intros Hr (a & b & g1 & -> & Ha & Hb)%captures_seq_inv.
  apply captures_plain in Ha as [Ha ->]; [|done]. eauto.
Qed.

Lemma captures_YEAR_RE mid m :
  captures Re.YEAR_RE mid None m →
  ∃ d, m = Some d ∧ String.length d = 4 ∧ all_chars Str.isdigit d = true.
Proof.
  unfold Re.YEAR_RE.
  intros (a1 & b1 & -> & _ & H)%captures_skip_head; [|apply has_group_lit_i].
  apply captures_skip_head in H as (a2 & b2 & -> & _ & H); [|done].
  apply captures_skip_head in H as (a3 & b3 & -> & _ & H); [|apply has_group_lit_i].
  apply captures_skip_head in H as (a4 & d & -> & _ & H); [|done].
  apply captures_group_inv in H as [-> Hd]. apply matches_times_class in Hd. eauto.
Qed.

Lemma captures_GARAGE_RE mid m :
  captures Re.GARAGE_RE mid None m →
  ∃ d, m = Some d ∧ d ≠ "" ∧ all_chars Str.isdigit d = true.
Proof.
  unfold Re.GARAGE_RE.
  intros (a1 & b1 & -> & _ & H)%captures_skip_head; [|apply has_group_lit_i].
  apply captures_skip_head in H as (a2 & d & -> & _ & H); [|done].
  apply captures_group_inv in H as [-> Hd]. apply matches_plus_chars in Hd. eauto.
Qed.

(** The units [LOT_RE] accepts, in lower case. *)
Lemma captures_LOT_RE mid m :
  captures Re.LOT_RE mid None m →
  ∃ number blanks unit,
    m = Some (number +:+ blanks +:+ unit)
    ∧ number ≠ ""
    ∧ all_chars (λ c, Str.isdigit c || Str.has_char ".," c) number = true
    ∧ all_chars Str.isspace blanks = true
    ∧ Re.matches Re.UNITS unit.
Proof.
  unfold Re.LOT_RE.
  intros (a1 & b1 & -> & _ & H)%captures_skip_head; [|apply has_group_lit_i].
  apply captures_skip_head in H as (a2 & d & -> & _ & H); [|done].
  apply captures_group_inv in H as [-> Hd].
  apply matches_seq_inv in Hd as (number & rest & -> & Hn & Hd).
  apply matches_seq_inv in Hd as (blanks & unit & -> & Hb & Hu).
  apply matches_plus_chars in Hn as [Hne Hn]. apply matches_star_chars in Hb.
  by exists number, blanks, unit.
Qed.

Lemma contains_nil s : Str.contains "" s = true.
Proof. apply contains_spec. by exists "", s. Qed.

(** X2. [year_built] is either empty or exactly four decimal digits that
    stand in the page source; it is empty exactly when the pattern finds
    nothing. *)
Theorem year_built_four_digits (request : Request) (page : Page) :
  ∃ v, extract_detail request page !! "year_built" = Some v
       ∧ (v = "" ∨ (String.length v = 4 ∧ all_chars Str.isdigit v = true))
       ∧ Str.contains v (content page) = true
       ∧ (v = "" ↔ Re.search Re.YEAR_RE (content page) = None).
Proof.
  exists (search_or_empty Re.YEAR_RE (content page)). split; [reflexivity|].
  unfold search_or_empty. destruct (Re.search Re.YEAR_RE (content page)) as [m|] eqn:E.
  - pose proof (search_group_inside _ _ _ E) as Hin.
    apply search_captures in E as (pre & mid & post & _ & Hc).
    apply captures_YEAR_RE in Hc as (d & -> & Hl & Hd). cbn [Re.group1 from_option id] in *.
    split; [by right|]. split; [done|].
    split; [intros Hv; rewrite Hv in Hl; discriminate | discriminate].
  - split; [by left|]. split; [apply contains_nil|]. done.
Qed.

(** X3. [garage] is either empty or a non-empty run of decimal digits that
    stands in the page source; it is empty exactly when the pattern finds
    nothing. *)
Theorem garage_is_a_number (request : Request) (page : Page) :
  ∃ v, extract_detail request page !! "garage" = Some v
       ∧ all_chars Str.isdigit v = true
       ∧ Str.contains v (content page) = true
       ∧ (v = "" ↔ Re.search Re.GARAGE_RE (content page) = None).
Proof.
  exists (search_or_empty Re.GARAGE_RE (content page)). split; [reflexivity|].
  unfold search_or_empty. destruct (Re.search Re.GARAGE_RE (content page)) as [m|] eqn:E.
  - pose proof (search_group_inside _ _ _ E) as Hin.
    apply search_captures in E as (pre & mid & post & _ & Hc).
    apply captures_GARAGE_RE in Hc as (d & -> & Hne & Hd). cbn [Re.group1 from_option id] in *.
    split; [done|]. split; [done|]. split; [done | discriminate].
  - split; [done|]. split; [apply contains_nil|]. done.
Qed.

(** X4. [lot_size] is either empty or a number (characters of the class
    [[\d.,]], at least one), then white space of the class [\s], then a unit
    that the alternation [ac|acre|sq\.? ft] matches under [re.I]; it stands
    in the page source, and is empty exactly when the pattern finds
    nothing. *)
Theorem lot_size_number_and_unit (request : Request) (page : Page) :
  ∃ v, extract_detail request page !! "lot_size" = Some v
       ∧ (v = "" ∨
          ∃ number blanks unit,
            v = number +:+ blanks +:+ unit
            ∧ number ≠ ""
            ∧ all_chars (λ c, Str.isdigit c || Str.has_char ".," c) number = true
            ∧ all_chars Str.isspace blanks = true
            ∧ Re.matches Re.UNITS unit)
       ∧ Str.contains v (content page) = true
       ∧ (v = "" ↔ Re.search Re.LOT_RE (content page) = None).
Proof.
  exists (search_or_empty Re.LOT_RE (content page)). split; [reflexivity|].
  unfold search_or_empty. destruct (Re.search Re.LOT_RE (content page)) as [m|] eqn:E.
  - pose proof (search_group_inside _ _ _ E) as Hin.
    apply search_captures in E as (pre & mid & post & _ & Hc).
    apply captures_LOT_RE in Hc as (number & blanks & unit & -> & Hne & Hn & Hb & Hu).
    cbn [Re.group1 from_option id] in *.
    split; [right; by exists number, blanks, unit|]. split; [done|].
    split; [intros H; by destruct number | discriminate].
  - split; [by left|]. split; [apply contains_nil|]. done.
Qed.

(** ** [safe_text] and the agent *)

Lemma strip_by_idem drop s : Str.strip_by drop (Str.strip_by drop s) = Str.strip_by drop s.
Proof. apply strip_by_id; apply strip_by_trimmed. Qed.

(** X5. What [safe_text] returns is the element's text without the white
    space around it: it neither begins nor ends with white space, stripping
    it again changes nothing, and it is empty when the element is missing,
    has no text, or a call raises. *)
Theorem safe_text_is_stripped (page : Page) (selector : string) :
  trimmed Str.isspace (safe_text page selector)
  ∧ Str.strip (safe_text page selector) = safe_text page selector
  ∧ (∀ el txt, query_selector page selector = Reply (Some el) →
               text_content el = Reply (Some txt) →
               safe_text page selector = Str.strip txt)
  ∧ (missing page selector → safe_text page selector = "").
Proof.
  assert (Hnil : trimmed Str.isspace "") by (split; [done | by intros []]).
  unfold safe_text, missing, Str.strip.
  destruct (query_selector page selector) as [[el|]|];
    [|split; [done|]; split; [done|]; split; [by intros ? ? [=] | done]..].
  destruct (text_content el) as [t|] eqn:Ht.
  - split; [apply strip_by_trimmed|]. split; [apply strip_by_idem|].
    split; [|by intros [?| [= ->]]].
    intros el' txt [= <-] Ht'. rewrite Ht in Ht'. by inversion Ht'.
  - split; [done|]. split; [done|]. split; [|done].
    intros el' txt [= <-] Ht'. rewrite Ht in Ht'. discriminate.
Qed.

Lemma safe_text_is_stripped_witness :
  safe_text (detail_page [("#location-data", "  Draper, UT 84020 ")] "") "#location-data"
  = "Draper, UT 84020"
  ∧ safe_text (detail_page [] "") "#location-data" = "".
Proof.
  split.
  - destruct (safe_text_is_stripped
                (detail_page [("#location-data", "  Draper, UT 84020 ")] "") "#location-data")
      as (_ & _ & Hfound & _).
    exact (Hfound (element "  Draper, UT 84020 ") "  Draper, UT 84020 " eq_refl eq_refl).
  - destruct (safe_text_is_stripped (detail_page [] "") "#location-data") as (_ & _ & _ & Hnone).
    apply Hnone. exact I.
Defined.

Lemma collapse_go_spaced b s :
  single_spaced (Str.collapse_go b s) = true
  ∧ (b = true → Str.startswith (Str.collapse_go b s) " " = false).
Proof.
  revert b. induction s as [|c s IH]; intros b; cbn [Str.collapse_go]; [done|].
  destruct (Str.isspace c) eqn:Hc.
  - destruct b; [apply IH|]. split; [|done]. cbn [single_spaced].
    destruct (IH true) as [H1 H2]. rewrite H1, (H2 eq_refl). reflexivity.
  - destruct (IH false) as [H1 _].
    assert (c ≠ " "%char) as Hne by (intros ->; vm_compute in Hc; discriminate).
    split.
    + cbn [single_spaced]. by rewrite Hc, H1, (bool_decide_eq_false_2 _ Hne).
    + intros _. cbn [Str.startswith]. case_decide; [by subst | done].
Qed.

Lemma single_spaced_tail c s : single_spaced (String c s) = true → single_spaced s = true.
Proof. cbn. by intros [_ ?]%andb_true_iff. Qed.

Lemma single_spaced_lstrip drop s :
  single_spaced s = true → single_spaced (Str.lstrip drop s) = true.
Proof.
  induction s as [|c s IH]; [done|]. intros H. cbn [Str.lstrip].
  destruct (drop c); [|done]. by apply IH, (single_spaced_tail c).
Qed.

Lemma rstrip_starts drop s c :
  Str.startswith (Str.rstrip drop s) (String c "") = true →
  Str.startswith s (String c "") = true.
Proof.
  destruct s as [|a s]; [done|].
  destruct (rstrip_head drop a s) as [-> | [r ->]]; [done|]. cbn. by destruct s.
Qed.

Lemma single_spaced_rstrip drop s :
  single_spaced s = true → single_spaced (Str.rstrip drop s) = true.
Proof.
  induction s as [|c s IH]; [done|]. intros H. pose proof (single_spaced_tail _ _ H) as Hs.
  specialize (IH Hs). cbn [Str.rstrip].
  destruct (Str.rstrip drop s) as [|a r] eqn:E.
  - destruct (drop c); [done|]. cbn in *. apply andb_true_iff in H as [H _].
    apply andb_true_iff in H as [-> _]. by rewrite andb_false_r.
  - cbn [single_spaced] in *. rewrite IH, andb_true_r.
    apply andb_true_iff in H as [H _]. apply andb_true_iff in H as [-> H]. cbn [andb].
    destruct (bool_decide (c = " "%char)); [|done]. cbn [andb] in *.
    destruct (Str.startswith (String a r) " ") eqn:Hst; [|done].
    rewrite <- E in Hst. apply rstrip_starts in Hst. by rewrite Hst in H.
Qed.

(** X6. The [agent] of a record has its white space normalised: every
    white-space character in it is a single blank between two other
    characters, so it neither begins nor ends with white space and has no
    two blanks in a row; it is empty when the element gives no text. *)
Theorem agent_is_single_spaced (request : Request) (page : Page) :
  ∃ v, extract_detail request page !! "agent" = Some v
       ∧ single_spaced v = true
       ∧ trimmed Str.isspace v
       ∧ (safe_text page ".agent-name, [class*='agent']" = "" → v = "").
Proof.
  eexists. split; [reflexivity|]. case_bool_decide as Ha.
  - split; [done|]. split; [|done]. split; [done | by intros []].
  - split; [|split; [apply strip_by_trimmed | done]].
    unfold Str.strip, Str.strip_by, Str.collapse_spaces.
    apply single_spaced_rstrip, single_spaced_lstrip, collapse_go_spaced.
Qed.

Lemma agent_is_single_spaced_witness :
  safe_text (detail_page [] "") ".agent-name, [class*='agent']" = ""
  ∧ extract_detail (new_request (detail_url "2084421") (Some "detail") ∅) (detail_page [] "")
      !! "agent" = Some "".
Proof.
  split; [reflexivity|].
  destruct (agent_is_single_spaced
              (new_request (detail_url "2084421") (Some "detail") ∅) (detail_page [] ""))
    as (v & Hv & _ & _ & Hnil).
  rewrite Hv. f_equal. apply Hnil. reflexivity.
Defined.

(** ** The identifier of a detail page *)

Lemma has_char_rev_app s t c :
  Str.has_char (String.rev_app s t) c = Str.has_char s c || Str.has_char t c.
Proof.
  revert t. induction s as [|a s IH]; intros t; cbn; [done|].
  rewrite IH. cbn. case_decide; [by rewrite orb_true_r | done].
Qed.

Lemma split_char_first_clean c cur s :
  Str.has_char cur c = false →
  Str.has_char (Str.first_item (Str.split_go (String c "") 0 cur s)) c = false.
Proof.
  revert cur. induction s as [|a s IH]; intros cur Hcur; cbn.
  - unfold String.rev. by rewrite has_char_rev_app, Hcur.
  - case_decide as Hca; cbn.
    + unfold String.rev. by rewrite has_char_rev_app, Hcur.
    + apply IH. cbn. by rewrite decide_False by congruence.
Qed.

(** A text in which the separator does not occur is one piece. *)
Lemma split_go_absent sep cur s :
  Str.contains sep s = false → Str.split_go sep 0 cur s = [String.rev cur +:+ s].
Proof.
  revert cur. induction s as [|a s IH]; intros cur; cbn [Str.contains Str.split_go].
  - intros _. by rewrite sapp_nil_r.
  - intros [H1 H2]%orb_false_iff. rewrite H1, (IH _ H2).
    unfold String.rev. cbn. by rewrite !rev_app_spec.
Qed.

Lemma contains_skip c sep m t :
  Str.has_char m c = false →
  Str.contains (String c sep) (m +:+ t) = Str.contains (String c sep) t.
Proof.
  induction m as [|a m IH]; cbn; [done|].
  case_decide as Ha; [discriminate|]. intros Hm.
  rewrite decide_False by congruence. cbn. by apply IH.
Qed.

Lemma split_char_first c cur m rest :
  Str.has_char m c = false →
  Str.first_item (Str.split_go (String c "") 0 cur (m +:+ String c rest))
  = String.rev cur +:+ m.
Proof.
  revert cur. induction m as [|a m IH]; intros cur; cbn.
  - intros _. rewrite decide_True by done. cbn. by rewrite sapp_nil_r.
  - case_decide as Ha; [discriminate|]. intros Hm.
    rewrite decide_False by congruence. rewrite (IH _ Hm).
    unfold String.rev. cbn. by rewrite !rev_app_spec.
Qed.

(** X7. The [mls] of a record never has a "/" in it.  For the detail URL
    of an identifier free of "/", followed by "/" and further text in which
    no "/listing/" begins, the mls is that identifier: what comes after the
    identifier's path segment is ignored. *)
Theorem mls_is_one_path_segment (request : Request) (page : Page) :
  ∃ v, extract_detail request page !! "mls" = Some v
       ∧ Str.has_char v "/" = false
       ∧ (∀ mls rest,
            url request = detail_url mls +:+ "/" +:+ rest →
            Str.has_char mls "/" = false →
            Str.contains "/listing/" ("/" +:+ rest) = false →
            v = mls).
Proof.
  exists (url_mls (url request)). split; [apply data_mls|]. split.
  - unfold url_mls, Str.split. by apply split_char_first_clean.
  - intros mls rest -> Hm Hrest. unfold url_mls.
    replace (detail_url mls +:+ "/" +:+ rest) with (detail_url (mls +:+ "/" +:+ rest))
      by (unfold detail_url; by rewrite !sapp_assoc).
    rewrite split_detail_url. unfold Str.split at 2.
    rewrite split_go_absent by (by rewrite (contains_skip "/" "listing/" mls _ Hm)).
    cbn [Str.last_item last default from_option id String.rev String.rev_app String.append].
    unfold Str.split. by rewrite (split_char_first "/" "" mls rest Hm).
Qed.

Lemma mls_is_one_path_segment_witness :
  extract_detail (new_request "https://www.utahrealestate.com/listing/2084421/photos" None ∅)
    (detail_page [] "") !! "mls" = Some "2084421".
Proof.
  destruct (mls_is_one_path_segment
              (new_request "https://www.utahrealestate.com/listing/2084421/photos" None ∅)
              (detail_page [] "")) as (v & Hv & _ & Hseg).
  rewrite Hv. f_equal. apply (Hseg "2084421" "photos"); reflexivity.
Defined.

(** ** What [is_valid_url] looks at *)

Lemma lower_char_idem c : Str.lower_char (Str.lower_char c) = Str.lower_char c.
Proof. destruct c as [[] [] [] [] [] [] [] []]; reflexivity. Qed.

Lemma lower_idem s : Str.lower (Str.lower s) = Str.lower s.
Proof. induction s as [|c s IH]; cbn; [done|]. by rewrite lower_char_idem, IH. Qed.

Lemma refused_app u t : u ≠ "" → refused u → refused (u +:+ t).
Proof.
  intros Hu [? | (p & rest & Hp & Hl)]; [done|]. right.
  exists p, (rest +:+ Str.lower t). split; [done|].
  by rewrite lower_app, Hl, sapp_assoc.
Qed.

(** X8. [is_valid_url] reads the beginning of the string and nothing else,
    without regard to letter case and without trimming: the answer for a
    string and for its lower-case form are the same; a non-empty string
    that is turned down stays turned down whatever is appended; and every
    string whose first character is none of j, J, m, M, t, T and "#" is
    accepted, so a blank in front lets "javascript:" through. *)
Theorem is_valid_url_reads_the_start (u : string) :
  is_valid_url (Str.lower u) = is_valid_url u
  ∧ (∀ t, u ≠ "" → is_valid_url u = false → is_valid_url (u +:+ t) = false)
  ∧ (∀ c s, u = String c s → Str.has_char "jJmMtT#" c = false → is_valid_url u = true).
Proof.
  split; [|split].
  - unfold is_valid_url. rewrite lower_idem.
    destruct u; [done|]. by rewrite !decide_False by done.
  - intros t Hu Hr. apply is_valid_url_false. apply refused_app; [done|].
    by apply is_valid_url_false.
  - intros c s -> Hc.
    destruct c as [[] [] [] [] [] [] [] []];
      try (vm_compute in Hc; discriminate Hc); vm_compute; reflexivity.
Qed.

Lemma is_valid_url_reads_the_start_witness :
  is_valid_url " javascript:void(0)" = true
  ∧ is_valid_url ("tel:" +:+ "+1 801 555 0100") = false.
Proof.
  destruct (is_valid_url_reads_the_start " javascript:void(0)") as (_ & _ & Hfirst).
  destruct (is_valid_url_reads_the_start "tel:") as (_ & Happ & _).
  split.
  - apply (Hfirst " "%char "javascript:void(0)"); reflexivity.
  - apply Happ; [discriminate | reflexivity].
Defined.

(** ** The memory check in bytes *)

(** X9. In bytes the limit of [check_memory] lies between 6764573491 and
    6764573492: it raises exactly for a resident set size above 6764573491
    bytes, whatever the request and the page are, since [router_handler]
    checks before it reads either; at or under it the value returned is the
    size in GiB; and once it raises it raises for every larger size. *)
Theorem memory_check_in_bytes (rss : Z) (request : Request) (page : Page)
    (visited : gset string) (rows : list (list string)) :
  (check_memory rss = inl MemoryError ↔ (6764573491 < rss)%Z)
  ∧ (router_handler rss request page visited rows = inl MemoryError ↔ (6764573491 < rss)%Z)
  ∧ ((rss ≤ 6764573491)%Z → check_memory rss = inr (inject_Z rss / inject_Z (1024 ^ 3))%Q)
  ∧ (∀ rss', (rss ≤ rss')%Z → check_memory rss = inl MemoryError →
             check_memory rss' = inl MemoryError).
Proof.
  destruct (check_memory_threshold rss) as (Hraise & Hret & Hbytes).
  assert (Hr : check_memory rss = inl MemoryError ↔ (6764573491 < rss)%Z).
  { by rewrite Hraise, Hbytes. }
  split; [done|]. split; [|split].
  - rewrite <- Hr. unfold router_handler.
    destruct (check_memory rss) as [e|q] eqn:E.
    { apply check_memory_exn in E as ->. done. }
    split; [|discriminate]. destruct (is_detail request); [done|].
    by destruct (extract_search_results_raises page).
  - intros Hle. apply Hret. apply Qnot_lt_le. rewrite Hbytes. lia.
  - intros rss' Hle H%Hr.
    destruct (check_memory_threshold rss') as (Hraise' & _ & Hbytes').
    rewrite Hraise', Hbytes'. lia.
Qed.

Lemma memory_check_in_bytes_witness :
  check_memory 6764573491 = inr (inject_Z 6764573491 / inject_Z (1024 ^ 3))%Q
  ∧ check_memory 8000000000 = inl MemoryError.
Proof.
  split.
  - apply (memory_check_in_bytes 6764573491 (new_request "" None ∅) (detail_page [] "") ∅ []).
    lia.
  - destruct (memory_check_in_bytes over_limit (new_request "" None ∅) (detail_page [] "") ∅ [])
      as (_ & _ & _ & Hmono).
    apply Hmono; [unfold over_limit; lia | reflexivity].
Defined.

(** ** The row of any dictionary *)

(** X10. [append_to_csv] makes a row of eleven cells from any dictionary:
    cell [i] is the value under header [i], or the empty string when the
    key is missing; a key that is not a header has no influence; a missing
    key and a key bound to the empty string give the same row.  The rows
    already in the file stay as they are and the new row comes last. *)
Theorem any_dict_gives_a_full_row (data : gmap string string) (rows : list (list string)) :
  length (csv_row data) = 11
  ∧ (∀ i k, CSV_HEADERS !! i = Some k → data !! k = None → csv_row data !! i = Some "")
  ∧ (∀ i k v, CSV_HEADERS !! i = Some k → data !! k = Some v → csv_row data !! i = Some v)
  ∧ (∀ k v, k ∉ CSV_HEADERS → csv_row (<[ k := v ]> data) = csv_row data)
  ∧ (∀ k, csv_row (delete k data) = csv_row (<[ k := "" ]> data))
  ∧ take (length rows) (append_to_csv data rows) = rows
  ∧ append_to_csv data rows !! length rows = Some (csv_row data)
  ∧ length (append_to_csv data rows) = S (length rows).
Proof.
  split; [done|]. split; [|split; [|split; [|split]]].
  - intros i k Hi Hk. by rewrite (csv_row_cells data i k Hi), Hk.
  - intros i k v Hi Hk. by rewrite (csv_row_cells data i k Hi), Hk.
  - intros k v Hk. unfold csv_row. apply Forall_fmap_ext, Forall_forall.
    intros k' Hk'. rewrite lookup_insert_ne; [done|]. by intros ->.
  - intros k. unfold csv_row. apply Forall_fmap_ext, Forall_forall.
    intros k' _. destruct (decide (k = k')) as [->|Hne].
    + by rewrite lookup_delete_eq, lookup_insert_eq.
    + by rewrite lookup_delete_ne, lookup_insert_ne.
  - unfold append_to_csv. split; [|split].
    + by rewrite take_app_length.
    + by rewrite list_lookup_middle.
    + rewrite length_app. cbn. lia.
Qed.

Lemma any_dict_gives_a_full_row_witness :
  csv_row {[ "price" := "$1"; "note" := "sold" ]}
  = [""; "$1"; ""; ""; ""; ""; ""; ""; ""; ""; ""]
  ∧ csv_row (<[ "note" := "sold" ]> {[ "price" := "$1" ]}) = csv_row {[ "price" := "$1" ]}.
Proof.
  split; [reflexivity|].
  apply (any_dict_gives_a_full_row {[ "price" := "$1" ]} []).
  apply (bool_decide_eq_false_1 ("note" ∈ CSV_HEADERS)). vm_compute. reflexivity.
Defined.

(** ** One pass over a page of results *)

Lemma card_ids_cons card cs : card_ids (card :: cs) = card_ids [card] ++ card_ids cs.
Proof. unfold card_ids. cbn. by destruct (match listno card with Reply (Some _) => _ | _ => _ end). Qed.

Lemma claim_card_fst city card visited :
  (claim_card city card visited).1 = visited ∪ list_to_set (card_ids [card]).
Proof.
  unfold claim_card, card_ids. cbn. destruct (listno card) as [[mls|]|]; cbn; [|sets..].
  case_bool_decide as H1; cbn; [sets|].
  case_bool_decide as H2; cbn; [sets|].
  destruct (add_requests_ok card); cbn; sets.
Qed.

Lemma claim_cards_fst city cs visited :
  (claim_cards city cs visited).1 = visited ∪ list_to_set (card_ids cs).
Proof.
  revert visited. induction cs as [|c cs IH]; intros visited.
  - cbn. sets.
  - rewrite claim_cards_cons, card_ids_cons, list_to_set_app_L. cbn [fst].
    rewrite IH, claim_card_fst. sets.
Qed.

Lemma claim_card_listed card mls :
  listno card = Reply (Some mls) → mls ≠ "" → card_ids [card] = [mls].
Proof. intros H Hne. unfold card_ids. cbn. by rewrite H, bool_decide_eq_false_2. Qed.

(** At most one Detail request for an identifier, and none for one that
    was in the set before. *)
Lemma claim_cards_tasks city cs mls : ∀ visited,
  length (tasks_for mls (claim_cards city cs visited).2) ≤ 1
  ∧ (mls ∈ visited → tasks_for mls (claim_cards city cs visited).2 = []).
Proof.
  induction cs as [|c cs IH]; intros visited; [cbn; split; [lia | done]|].
  rewrite claim_cards_cons. cbn [snd]. rewrite tasks_for_app.
  destruct (claim_card_cases city c visited)
    as [Hc | (m & Hl & Hne & Hnew & Hset & [[Hok Hout] | [Hok Hout]])].
  - rewrite Hc. cbn [fst snd]. apply IH.
  - rewrite Hout, Hset. cbn [app]. destruct (IH (visited ∪ {[ m ]})) as [H1 H2].
    split; [done|]. intros Hin. apply H2. sets.
  - rewrite Hout, Hset, tasks_for_detail. destruct (IH (visited ∪ {[ m ]})) as [H1 H2].
    case_bool_decide as Hm.
    + subst m. rewrite H2 by sets. split; [cbn; lia | done].
    + cbn [app]. split; [done|]. intros Hin. apply H2. sets.
Qed.

(** With every [add_requests] taken, each new identifier gets its
    request. *)
Lemma claim_cards_all_taken city cs mls : ∀ visited,
  Forall (λ card, add_requests_ok card = true) cs →
  mls ∈ card_ids cs → mls ∉ visited →
  length (tasks_for mls (claim_cards city cs visited).2) = 1.
Proof.
  induction cs as [|c cs IH]; intros visited Hall Hin Hnew; [by apply elem_of_nil in Hin|].
  apply Forall_cons in Hall as [Hc Hall].
  rewrite claim_cards_cons. cbn [snd]. rewrite tasks_for_app.
  rewrite card_ids_cons in Hin.
  destruct (claim_card_cases city c visited)
    as [Hcl | (m & Hl & Hne & Hm & Hset & [[Hok Hout] | [Hok Hout]])].
  - assert (Hsub : visited = visited ∪ list_to_set (card_ids [c])).
    { rewrite <- claim_card_fst with (city := city). by rewrite Hcl. }
    rewrite Hcl. cbn [fst snd app]. apply IH; [done| |done].
    apply elem_of_app in Hin as [Hin|Hin]; [|done].
    exfalso. apply Hnew. rewrite Hsub. by apply elem_of_union_r, elem_of_list_to_set.
  - congruence.
  - rewrite Hout, Hset, tasks_for_detail.
    rewrite (claim_card_listed c m Hl Hne) in Hin.
    case_bool_decide as Hmm.
    + subst m. destruct (claim_cards_tasks city cs mls (visited ∪ {[ mls ]})) as [_ H2].
      rewrite H2 by sets. done.
    + cbn [app]. apply IH; [done| |sets]. sets.
Qed.

Lemma claim_cards_length city cs : ∀ visited,
  length (claim_cards city cs visited).2 ≤ length cs.
Proof.
  induction cs as [|c cs IH]; intros visited; [cbn; lia|].
  rewrite claim_cards_cons. cbn [snd]. rewrite length_app. cbn [length].
  specialize (IH (claim_card city c visited).1).
  destruct (claim_card_cases city c visited)
    as [Hc | (m & _ & _ & _ & _ & [[_ Hout] | [_ Hout]])].
  - rewrite Hc in *. cbn in *. lia.
  - rewrite Hout. cbn. lia.
  - rewrite Hout. cbn. lia.
Qed.

Lemma claim_cards_from_cards city cs q : ∀ visited,
  q ∈ (claim_cards city cs visited).2 →
  ∃ mls, mls ∈ card_ids cs ∧ (mls ∉ visited)
         ∧ q = new_request (detail_url mls) (Some "detail") {[ "city" := city ]}.
Proof.
  induction cs as [|c cs IH]; intros visited; [by intros ?%elem_of_nil|].
  rewrite claim_cards_cons, card_ids_cons. cbn [snd]. intros [Hq|Hq]%elem_of_app.
  - destruct (claim_card_cases city c visited)
      as [Hc | (m & Hl & Hne & Hm & _ & [[_ Hout] | [_ Hout]])].
    + rewrite Hc in Hq. by apply elem_of_nil in Hq.
    + rewrite Hout in Hq. by apply elem_of_nil in Hq.
    + rewrite Hout in Hq. apply list_elem_of_singleton in Hq as ->.
      exists m. rewrite (claim_card_listed c m Hl Hne). sets.
  - apply IH in Hq as (mls & Hin & Hnew & ->). exists mls.
    rewrite claim_card_fst in Hnew. sets.
Qed.

Lemma claim_cards_known city cs (visited : gset string) :
  (∀ mls, mls ∈ card_ids cs → mls ∈ visited) → claim_cards city cs visited = (visited, []).
Proof.
  induction cs as [|c cs IH]; intros Hk; [done|].
  rewrite card_ids_cons in Hk.
  assert (Hc : claim_card city c visited = (visited, [])).
  { destruct (claim_card_cases city c visited) as [Hc | (m & Hl & Hne & Hm & _)]; [done|].
    exfalso. apply Hm, Hk. rewrite (claim_card_listed c m Hl Hne). sets. }
  rewrite claim_cards_cons, Hc. cbn [fst snd app].
  rewrite IH; [done|]. intros mls Hin. apply Hk. sets.
Qed.

(** X11. One pass of [extract_search_results] over a page whose cards
    appeared: the set afterwards is the set before plus every non-empty
    identifier on the cards, whether or not its request was taken; every
    Detail request added is the one of an identifier on the cards that
    was not in the set before, with the page's city; no identifier gets two
    of them, and each new one gets exactly one when every [add_requests]
    is taken; at most one request more than there are cards is added. *)
Theorem one_pass_over_the_cards (request : Request) (page : Page) (visited : gset string) :
  cards_appear page = true →
  let city := search_city (url request) in
  let r := extract_search_results request page visited in
  r.1 = visited ∪ list_to_set (card_ids (cards page))
  ∧ (∀ q, q ∈ r.2 → label q = Some "detail" →
       ∃ mls, mls ∈ card_ids (cards page) ∧ (mls ∉ visited)
              ∧ q = new_request (detail_url mls) (Some "detail") {[ "city" := city ]})
  ∧ (∀ mls, length (tasks_for mls r.2) ≤ 1)
  ∧ (Forall (λ card, add_requests_ok card = true) (cards page) →
     ∀ mls, mls ∈ card_ids (cards page) → mls ∉ visited →
            length (tasks_for mls r.2) = 1)
  ∧ length r.2 ≤ length (cards page) + 1.
Proof.
  intros Happ. cbn zeta. unfold extract_search_results. rewrite Happ. cbn [fst snd].
  split; [apply claim_cards_fst|]. split; [|split; [|split]].
  - intros q [Hq|Hq]%elem_of_app Hd.
    + by apply claim_cards_from_cards in Hq.
    + apply next_page_city in Hq as [Hq _]. congruence.
  - intros mls. rewrite tasks_for_app, tasks_for_next_page, app_nil_r.
    apply claim_cards_tasks.
  - intros Hall mls Hin Hnew. rewrite tasks_for_app, tasks_for_next_page, app_nil_r.
    by apply claim_cards_all_taken.
  - rewrite length_app.
    pose proof (claim_cards_length (search_city (url request)) (cards page) visited) as Hl.
    assert (length (next_page (search_city (url request)) page) ≤ 1) as Hn.
    { unfold next_page, pagination. destruct (next_btn page) as [[href|]|]; cbn; [|lia..].
      destruct (_ && _); cbn; [|lia]. unfold from_url.
      destruct (url_accepted _ _); cbn; lia. }
    lia.
Qed.

Lemma one_pass_over_the_cards_witness :
  (extract_search_results (new_request "https://www.utahrealestate.com/draper-homes" None ∅)
     (results_page true ["2084421"; ""; "2084421"; "7"] None) {[ "7" ]}).1
  = {[ "7" ]} ∪ list_to_set ["2084421"; "2084421"; "7"]
  ∧ length (tasks_for "2084421"
              (extract_search_results
                 (new_request "https://www.utahrealestate.com/draper-homes" None ∅)
                 (results_page true ["2084421"; ""; "2084421"; "7"] None) {[ "7" ]}).2) = 1.
Proof.
  destruct (one_pass_over_the_cards
              (new_request "https://www.utahrealestate.com/draper-homes" None ∅)
              (results_page true ["2084421"; ""; "2084421"; "7"] None) {[ "7" ]} eq_refl)
    as (Hset & _ & _ & Hone & _).
  split; [exact Hset|]. apply Hone.
  - repeat constructor.
  - apply (bool_decide_eq_true_1 (_ ∈ _)). vm_compute. reflexivity.
  - apply (bool_decide_eq_false_1 (_ ∈ _)). vm_compute. reflexivity.
Defined.

(** X12. A page that was passed over once gives nothing more: run again on
    the same page with the set as the first pass left it, or any larger
    set, [extract_search_results] claims no identifier and adds no Detail
    request; it adds the next-page request again if there is one. *)
Theorem second_pass_claims_nothing (request : Request) (page : Page) (visited : gset string) :
  ∀ visited' : gset string,
    (extract_search_results request page visited).1 ⊆ visited' →
    extract_search_results request page visited'
    = (visited', if cards_appear page then next_page (search_city (url request)) page else []).
Proof.
  intros visited'. unfold extract_search_results.
  destruct (cards_appear page); [|done]. cbn [fst snd]. rewrite claim_cards_fst. intros Hsub.
  rewrite claim_cards_known; [done|]. intros mls Hin. apply Hsub. sets.
Qed.

Lemma second_pass_claims_nothing_witness :
  extract_search_results (new_request "https://www.utahrealestate.com/draper-homes" None ∅)
    (results_page true ["2084421"; "7"] (Some (Some "/draper-homes?page=2")))
    (extract_search_results (new_request "https://www.utahrealestate.com/draper-homes" None ∅)
       (results_page true ["2084421"; "7"] (Some (Some "/draper-homes?page=2"))) ∅).1
  = ((extract_search_results (new_request "https://www.utahrealestate.com/draper-homes" None ∅)
        (results_page true ["2084421"; "7"] (Some (Some "/draper-homes?page=2"))) ∅).1,
     [new_request "https://www.utahrealestate.com/draper-homes?page=2" None
        {[ "city" := "draper" ]}]).
Proof.
  apply (second_pass_claims_nothing
           (new_request "https://www.utahrealestate.com/draper-homes" None ∅)
           (results_page true ["2084421"; "7"] (Some (Some "/draper-homes?page=2"))) ∅).
  reflexivity.
Defined.

(** ** What a crawl keeps *)

Lemma step_grows m c c' :
  step m c = Some c' →
  visited_mls c ⊆ visited_mls c'
  ∧ csv_rows c `prefix_of` csv_rows c'
  ∧ added c `prefix_of` added c'
  ∧ length (csv_rows c') ≤ length (csv_rows c) + (if is_fetch m then 1 else 0).
Proof.
  destruct m as [i rss page|i|j|j]; cbn [step is_fetch].
  - destruct (queue c !! i) as [request|]; [|discriminate]. cbn [mbind option_bind].
    destruct (check_memory rss); [|destruct (is_detail request); [|destruct (cards_appear page)]];
      intros [= <-]; fields; (split; [done|]); (split; [|split; [done|]]);
      try done; try lia.
    + by apply prefix_app_r.
    + unfold append_to_csv. rewrite length_app. cbn. lia.
  - destruct (queue c !! i) as [request|]; [|discriminate]. cbn [mbind option_bind].
    intros [= <-]; fields. split; [done|]. split; [done|]. split; [done|]. lia.
  - destruct (running c !! j) as [h|]; [|discriminate]. cbn [mbind option_bind].
    destruct (sr_cards h) as [|card rest];
      [destruct (pagination (sr_city h) (sr_page h))|]; intros [= <-]; fields.
    + split; [done|]. split; [done|]. split; [by apply prefix_app_r|]. lia.
    + split; [done|]. split; [done|]. split; [done|]. lia.
    + split; [rewrite claim_card_fst; sets|]. split; [done|]. split; [done|]. lia.
  - destruct (running c !! j) as [h|]; [|discriminate]. cbn [mbind option_bind].
    intros [= <-]; fields. split; [done|]. split; [done|]. split; [done|]. lia.
Qed.

(** X13. Whatever the crawler does and in whatever order, the script only
    adds: the set of identifiers seen never loses one, the rows of the CSV
    file and the requests that have reached the queue stay as they are
    while new ones come after them; and a row is written only by the move
    that starts a handler, one at most, so that there are never more new
    rows than handlers run. *)
Theorem crawl_only_adds (moves : list Move) (c c' : Crawl) :
  run moves c = Some c' →
  visited_mls c ⊆ visited_mls c'
  ∧ csv_rows c `prefix_of` csv_rows c'
  ∧ added c `prefix_of` added c'
  ∧ length (csv_rows c') ≤ length (csv_rows c) + handler_runs moves.
Proof.
  revert c. induction moves as [|m moves IH]; intros c; cbn [run].
  - intros [= <-]. cbn. split; [done|]. split; [done|]. split; [done|]. lia.
  - destruct (step m c) as [c1|] eqn:Hs; [|discriminate]. cbn [mbind option_bind].
    intros Hr. apply step_grows in Hs as (H1 & H2 & H3 & H4).
    apply IH in Hr as (H1' & H2' & H3' & H4').
    split; [by etrans|]. split; [by etrans|]. split; [by etrans|].
    unfold handler_runs in *. destruct (is_fetch m) eqn:Hm.
    + rewrite filter_cons_True by done. cbn [length]. lia.
    + rewrite filter_cons_False by (by rewrite Hm). lia.
Qed.

Lemma crawl_only_adds_witness :
  length (csv_rows (after two_listings_moves)) = 1
  ∧ visited_mls (after two_listings_moves)
    ⊆ visited_mls (after (two_listings_moves ++ [Fetch 12 quiet (detail_page [] "")]))
  ∧ csv_rows (after two_listings_moves)
    `prefix_of` csv_rows (after (two_listings_moves
                                 ++ [Fetch 12 quiet (detail_page [] "")]))
  ∧ length (csv_rows (after (two_listings_moves
                             ++ [Fetch 12 quiet (detail_page [] "")])))
    ≤ length (csv_rows (after two_listings_moves)) + 1.
Proof.
  split; [reflexivity|].
  destruct (crawl_only_adds [Fetch 12 quiet (detail_page [] "")]
              (after two_listings_moves)
              (after (two_listings_moves ++ [Fetch 12 quiet (detail_page [] "")])))
    as (Hv & Hrows & _ & Hlen).
  - vm_compute. reflexivity.
  - split; [exact Hv|]. split; [exact Hrows | exact Hlen].
Defined.

(** ** Where the city of a row comes from *)

Lemma is_detail_same r r0 : url r = url r0 → label r = label r0 → is_detail r = is_detail r0.
Proof. intros Hu Hl. unfold is_detail. by rewrite Hu, Hl. Qed.

Lemma request_of_retry l r : request_of l r → Forall (request_of l) (retry r).
Proof.
  intros Hr. unfold retry. destruct (_ <? _); [|done]. by apply Forall_singleton.
Qed.

Lemma request_of_more l l' r : request_of l r → request_of (l ++ l') r.
Proof. intros (r0 & Hin & H). exists r0. split; [|done]. apply elem_of_app. by left. Qed.

Lemma city_from_search_more l l' r : city_from_search l r → city_from_search (l ++ l') r.
Proof. intros (s & Hin & H). exists s. split; [|done]. apply elem_of_app. by left. Qed.

Lemma row_with_city_more l l' row : row_with_city l row → row_with_city (l ++ l') row.
Proof.
  intros (Hl & s & Hin & H). split; [done|]. exists s. split; [|done]. apply elem_of_app. by left.
Qed.

Lemma start_requests_are_searches r : r ∈ queue main_init → is_detail r = false.
Proof.
  intros Hr.
  assert (forallb (λ r, negb (is_detail r)) (queue main_init) = true) as Hall
    by (vm_compute; reflexivity).
  rewrite forallb_forall in Hall. apply list_elem_of_In, Hall in Hr.
  by apply negb_true_iff in Hr.
Qed.

(** The row of a request bound for [extract_detail]. *)
Lemma row_with_city_detail c request page :
  Forall (city_from_search (known c)) (added c) →
  request_of (known c) request → is_detail request = true →
  row_with_city (known c) (csv_row (extract_detail request page)).
Proof.
  intros Hadded (r0 & Hin & Hu & Hl & Hd) Hdet.
  rewrite (is_detail_same request r0 Hu Hl) in Hdet.
  unfold known in Hin. apply elem_of_app in Hin as [Hin|Hin].
  { apply start_requests_are_searches in Hin. congruence. }
  destruct (proj1 (Forall_forall _ _) Hadded r0 Hin) as (s & Hs & Hsd & Hcity).
  split; [done|]. exists s. split; [done|]. split; [done|].
  rewrite (csv_row_cells _ 10 "city") by done.
  by rewrite data_city, Hd, Hcity, lookup_singleton_eq.
Qed.

Lemma city_passed_step m c c' : step m c = Some c' → city_passed c → city_passed c'.
Proof.
  intros Hs (Hq & Hr & Ha & Hrows). unfold city_passed.
  destruct m as [i rss page|i|j|j]; cbn [step] in Hs.
  - destruct (queue c !! i) as [request|] eqn:Hi; [|discriminate]. cbn [mbind option_bind] in Hs.
    pose proof (proj1 (Forall_lookup _ _) Hq i request Hi) as Hreq.
    pose proof (Forall_delete _ _ i Hq) as Hrest.
    destruct (check_memory rss).
    { inversion Hs; subst c'; clear Hs. unfold known. fields. split; [|done].
      apply Forall_app. split; [done | by apply request_of_retry]. }
    destruct (is_detail request) eqn:Hd; [|destruct (cards_appear page)];
      inversion Hs; subst c'; clear Hs; unfold known in *; fields.
    + split; [done|]. split; [done|]. split; [done|]. unfold append_to_csv. apply Forall_app.
      split; [done|]. apply Forall_singleton. by apply (row_with_city_detail c).
    + split; [done|]. split; [|done]. apply Forall_app. split; [done|].
      apply Forall_singleton. cbn [sr_request sr_city sr_added]. by repeat split.
    + done.
  - destruct (queue c !! i) as [request|] eqn:Hi; [|discriminate]. cbn [mbind option_bind] in Hs.
    pose proof (proj1 (Forall_lookup _ _) Hq i request Hi) as Hreq.
    inversion Hs; subst c'; clear Hs. unfold known. fields. split; [|done].
    apply Forall_app. split; [by apply Forall_delete | by apply request_of_retry].
  - destruct (running c !! j) as [h|] eqn:Hj; [|discriminate]. cbn [mbind option_bind] in Hs.
    destruct (proj1 (Forall_lookup _ _) Hr j h Hj) as (Hreq & Hsearch & Hcity & Hheld).
    destruct (sr_cards h) as [|card rest].
    + destruct (pagination (sr_city h) (sr_page h)) as [out|] eqn:Hp;
        inversion Hs; subst c'; clear Hs; unfold known in *; fields.
      * assert (Forall (λ q, user_data q = {[ "city" := sr_city h ]}) (sr_added h ++ out))
          as Hnew.
        { apply Forall_app. split; [done|]. apply Forall_forall. intros q Hin.
          by destruct (pagination_elem _ _ _ q Hp Hin). }
        rewrite !(assoc_L (++) (queue main_init)).
        split; [|split; [|split]].
        -- apply Forall_app. split.
           ++ eapply Forall_impl; [exact Hq|]. intros r. apply request_of_more.
           ++ apply Forall_forall. intros q Hin. exists q. split; [|done].
              apply elem_of_app. by right.
        -- apply Forall_delete. eapply Forall_impl; [exact Hr|].
           intros h0 (H1 & H2 & H3 & H4). split; [by apply request_of_more|]. done.
        -- apply Forall_app. split.
           ++ eapply Forall_impl; [exact Ha|]. intros r. apply city_from_search_more.
           ++ eapply Forall_impl; [exact Hnew|].
              intros q Hqd. destruct Hreq as (r0 & Hin & Hu & Hl & _).
              exists r0. split; [apply elem_of_app; by left|].
              split; [by rewrite <- (is_detail_same (sr_request h) r0 Hu Hl)|].
              by rewrite Hqd, Hcity, Hu.
        -- eapply Forall_impl; [exact Hrows|]. intros row. apply row_with_city_more.
      * split; [|split; [by apply Forall_delete | done]].
        apply Forall_app. split; [done | by apply request_of_retry].
    + inversion Hs; subst c'; clear Hs; unfold known in *; fields.
      split; [done|]. split; [|done].
      apply Forall_insert; [done|]. cbn [sr_request sr_city sr_added].
      split; [done|]. split; [done|]. split; [done|]. apply Forall_app. split; [done|].
      apply Forall_forall. intros q Hin. by apply claim_card_city in Hin as (_ & ? & _).
  - destruct (running c !! j) as [h|] eqn:Hj; [|discriminate]. cbn [mbind option_bind] in Hs.
    destruct (proj1 (Forall_lookup _ _) Hr j h Hj) as (Hreq & _).
    inversion Hs; subst c'; clear Hs. unfold known. fields.
    split; [|split; [by apply Forall_delete | done]].
    apply Forall_app. split; [done | by apply request_of_retry].
Qed.

Lemma city_passed_run moves c c' : run moves c = Some c' → city_passed c → city_passed c'.
Proof.
  revert c. induction moves as [|m moves IH]; intros c; cbn [run]; [by intros [= <-]|].
  destruct (step m c) as [c1|] eqn:Hs; [|discriminate]. cbn [mbind option_bind].
  intros Hr Hc. apply (IH c1 Hr). by apply (city_passed_step m c).
Qed.

Lemma city_passed_init : city_passed main_init.
Proof.
  split; [|split; [|split]]; [|done..].
  apply Forall_forall. intros r Hr. exists r. split; [|done].
  unfold known. apply elem_of_app. by left.
Qed.

Lemma search_city_plain u :
  search_city u ≠ "" ∧ Str.has_char (search_city u) "/" = false.
Proof.
  unfold search_city. destruct (Re.search Re.CITY_RE u) as [m|] eqn:E; [|done].
  apply search_captures in E as (pre & mid & post & -> & Hc).
  by apply captures_CITY_RE in Hc as (slug & -> & -> & Hne & Hs).
Qed.

(** X14. In a crawl started by [main], every request that reaches
    [extract_detail] has come to the queue from the handler of a page of
    results and brings that page's city along: the default of
    [user_data.get("city", "unknown")] is never taken for lack of the key.
    So every row of the CSV file has eleven cells, and its city cell is
    what the city pattern gives on the URL of a request of this crawl, one
    of those [main] starts with or one that reached the queue later, that
    the router sends to [extract_search_results]; it is not empty and has
    no "/". *)
Theorem rows_carry_a_search_city (moves : list Move) (c : Crawl) :
  run moves main_init = Some c →
  (∀ r, r ∈ queue c → is_detail r = true →
        ∃ s, s ∈ queue main_init ++ added c ∧ is_detail s = false
             ∧ user_data r = {[ "city" := search_city (url s) ]})
  ∧ (∀ row, row ∈ csv_rows c →
        length row = 11
        ∧ ∃ s, s ∈ queue main_init ++ added c ∧ is_detail s = false
               ∧ row !! 10 = Some (search_city (url s))
               ∧ search_city (url s) ≠ ""
               ∧ Str.has_char (search_city (url s)) "/" = false).
Proof.
  intros Hr. destruct (city_passed_run moves main_init c Hr city_passed_init)
    as (Hq & _ & Ha & Hrows).
  split.
  - intros r Hin Hd.
    destruct (proj1 (Forall_forall _ _) Hq r Hin) as (r0 & Hin0 & Hu & Hl & Hud).
    rewrite (is_detail_same r r0 Hu Hl) in Hd.
    unfold known in Hin0. apply elem_of_app in Hin0 as [Hin0|Hin0].
    { apply start_requests_are_searches in Hin0. congruence. }
    destruct (proj1 (Forall_forall _ _) Ha r0 Hin0) as (s & Hs & Hsd & Hcity).
    exists s. by rewrite Hud.
  - intros row Hin.
    destruct (proj1 (Forall_forall _ _) Hrows row Hin) as (Hl & s & Hs & Hsd & Hcity).
    split; [done|]. exists s. destruct (search_city_plain (url s)) as [H1 H2]. done.
Qed.

Lemma rows_carry_a_search_city_witness :
  length (default [] (csv_rows (after plain_moves) !! 0)) = 11
  ∧ ∃ s, s ∈ queue main_init ++ added (after plain_moves) ∧ is_detail s = false
         ∧ default [] (csv_rows (after plain_moves) !! 0) !! 10 = Some (search_city (url s))
         ∧ search_city (url s) ≠ ""
         ∧ Str.has_char (search_city (url s)) "/" = false.
Proof.
  destruct (rows_carry_a_search_city plain_moves (after plain_moves) run_after_plain)
    as [_ Hrows].
  apply (Hrows (default [] (csv_rows (after plain_moves) !! 0))).
  apply (bool_decide_eq_true_1 (_ ∈ _)). vm_compute. reflexivity.
Defined.

(** ** Which slug the city pattern takes *)

Section MatcherSteps.
Context {R : Type}.
Implicit Types (k : string → option string → option R).

Lemma run_seq fuel r1 r2 s g k :
  Re.run (S fuel) (Re.Seq r1 r2) s g k
  = Re.run fuel r1 s g (λ s1 g1, Re.run fuel r2 s1 g1 k).
Proof. done. Qed.

Lemma run_chr fuel f c s g k :
  Re.run (S fuel) (Re.Chr f) (String c s) g k = if f c then k s g else None.
Proof. done. Qed.

Lemma run_star fuel r s g k :
  Re.run (S fuel) (Re.Star r) s g k
  = match Re.run fuel r s g (λ s1 g1,
            if String.length s1 <? String.length s
            then Re.run fuel (Re.Star r) s1 g1 k else None) with
    | Some x => Some x
    | None => k s g
    end.
Proof. done. Qed.

Lemma run_group fuel r s g k :
  Re.run (S fuel) (Re.Group r) s g k
  = Re.run fuel r s g (λ s1 _, k s1 (Some (Re.consumed s s1))).
Proof. done. Qed.

Lemma run_lit fuel p s g k :
  String.length p < fuel → Re.run fuel (Re.lit p) (p +:+ s) g k = k s g.
Proof.
  revert fuel. induction p as [|a p IH]; intros fuel Hf.
  - destruct fuel; [lia|]. done.
  - cbn [String.length] in Hf. destruct fuel as [|[|fuel]]; [lia..|].
    cbn [Re.lit String.append]. rewrite run_seq. unfold Re.char at 1. rewrite run_chr.
    rewrite bool_decide_eq_true_2 by done. apply IH. lia.
Qed.

Lemma run_lit_fails fuel p s g k :
  Str.startswith s p = false → Re.run fuel (Re.lit p) s g k = None.
Proof.
  revert fuel s. induction p as [|a p IH]; intros fuel s; [done|].
  destruct fuel as [|[|fuel]]; [done..|]. cbn [Re.lit Str.startswith].
  rewrite run_seq. unfold Re.char at 1.
  destruct s as [|x s]; [done|]. rewrite run_chr. case_decide as Hx.
  - subst x. rewrite bool_decide_eq_true_2 by done. apply IH.
  - intros _. by rewrite bool_decide_eq_false_2 by congruence.
Qed.

Lemma run_star_class fuel f s g k :
  String.length s + 1 < fuel →
  Re.run fuel (Re.Star (Re.Chr f)) s g k = longest_first f s (λ s1, k s1 g).
Proof.
  revert fuel. induction s as [|c s IH]; intros fuel Hf.
  - cbn [String.length] in Hf. destruct fuel as [|[|fuel]]; [lia..|done].
  - cbn [String.length] in Hf. destruct fuel as [|[|fuel]]; [lia..|].
    rewrite run_star, run_chr. cbn [longest_first]. destruct (f c); [|done].
    cbn [String.length]. rewrite (proj2 (Nat.ltb_lt _ _)) by lia.
    rewrite IH by lia. done.
Qed.

Lemma longest_first_none f s (k : string → option R) :
  (∀ a b, s = a +:+ b → all_chars f a = true → k b = None) → longest_first f s k = None.
Proof.
  induction s as [|c s IH]; intros Hk; cbn [longest_first].
  - by apply (Hk "" "").
  - destruct (f c) eqn:Hc; [|by apply (Hk "" (String c s))].
    rewrite IH; [by apply (Hk "" (String c s))|].
    intros a b -> Ha. apply (Hk (String c a) b); [done|]. cbn. by rewrite Hc.
Qed.

Lemma longest_first_last f s1 s2 (k : string → option R) :
  all_chars f s1 = true → is_Some (k s2) →
  (∀ a b, s2 = a +:+ b → a ≠ "" → all_chars f a = true → k b = None) →
  longest_first f (s1 +:+ s2) k = k s2.
Proof.
  intros H1 [x Hx] Hk. induction s1 as [|c s1 IH]; cbn [String.append].
  - destruct s2 as [|c s2]; [done|]. cbn [longest_first].
    destruct (f c) eqn:Hc; [|done]. rewrite longest_first_none; [done|].
    intros a b -> Ha. apply (Hk (String c a) b); [done..|]. cbn. by rewrite Hc.
  - cbn in H1. destruct (f c) eqn:Hc; [|done]. cbn [longest_first].
    rewrite Hc, (IH H1), Hx. done.
Qed.
End MatcherSteps.

Lemma city_re_needs_u fuel x s g (k : string → option string → option (option string)) :
  x ≠ "u"%char → Re.run fuel Re.CITY_RE (String x s) g k = None.
Proof.
  intros Hx. destruct fuel as [|[|[|fuel]]]; [done..|].
  unfold Re.CITY_RE. rewrite run_seq. cbn [Re.lit]. rewrite run_seq.
  unfold Re.char at 1. rewrite run_chr. by rewrite bool_decide_eq_false_2.
Qed.

Lemma search_city_re_skip x s :
  x ≠ "u"%char → Re.search Re.CITY_RE (String x s) = Re.search Re.CITY_RE s.
Proof.
  intros Hx. cbn [Re.search]. unfold Re.match_here at 1. by rewrite city_re_needs_u.
Qed.

Lemma need_lit p n : Re.need (Re.lit p) n = S (String.length p).
Proof. induction p as [|a p IH]; [done|]. cbn [Re.lit Re.need Re.char String.length]. lia. Qed.

(** The match that begins right at ["utahrealestate.com/"]: the slug goes
    on to the last ["-homes"] of the stretch without ["/"]. *)
Lemma match_here_city c post :
  c ≠ "" → Str.has_char c "/" = false →
  (∀ a b, "-homes" +:+ post = a +:+ b → a ≠ "" →
          all_chars (λ x, negb (bool_decide (x = "/"%char))) a = true →
          Str.startswith b "-homes" = false) →
  Re.match_here Re.CITY_RE ("utahrealestate.com/" +:+ c +:+ "-homes" +:+ post) = Some (Some c).
Proof.
  intros Hne Hc Hlast. unfold Re.match_here.
  assert (String.length (c +:+ "-homes" +:+ post) = String.length c + (6 + String.length post))
    as Hlen by (by rewrite !sapp_length).
  set (t := c +:+ "-homes" +:+ post) in *.
  remember (Re.need Re.CITY_RE (String.length ("utahrealestate.com/" +:+ t))) as fuel eqn:Hf.
  assert (String.length t + 24 ≤ fuel) as Hfuel.
  { subst fuel. rewrite sapp_length. unfold Re.CITY_RE, Re.Plus.
    cbn [Re.need]. rewrite !need_lit. cbn [String.length].
    generalize (String.length t). clear. intros n. lia. }
  clear Hf. destruct fuel as [|f1]; [lia|].
  unfold Re.CITY_RE. rewrite run_seq, run_lit by (cbn; lia).
  destruct f1 as [|f2]; [lia|]. rewrite run_seq.
  destruct f2 as [|f3]; [lia|]. rewrite run_group.
  destruct f3 as [|f4]; [lia|]. unfold Re.Plus. rewrite run_seq.
  destruct f4 as [|f5]; [lia|].
  apply all_chars_not_slash in Hc. rewrite Hlen in Hfuel. clear Hlen. subst t.
  destruct c as [|c0 c']; [done|]. cbn [String.append]. rewrite run_chr.
  cbn [all_chars] in Hc. apply andb_true_iff in Hc as [Hc0 Hc']. rewrite Hc0.
  cbn [String.length] in Hfuel.
  assert (String.length (c' +:+ "-homes" +:+ post) + 1 < S f5) as Hstar
    by (rewrite !sapp_length; cbn [String.length]; clear -Hfuel; lia).
  change (String "-" (String "h" (String "o" (String "m" (String "e" (String "s" post))))))
    with ("-homes" +:+ post).
  rewrite run_star_class by exact Hstar.
  rewrite longest_first_last; [| done | |].
  - rewrite run_lit by (cbn; lia).
    change (String c0 (c' +:+ "-homes" +:+ post))
      with (String c0 c' +:+ "-homes" +:+ post).
    by rewrite consumed_app.
  - rewrite run_lit by (cbn; lia). by eexists.
  - intros a b E Ha Hall. apply run_lit_fails. by apply (Hlast a b).
Qed.

Lemma search_here r s g : Re.match_here r s = Some g → Re.search r s = Some g.
Proof. intros H. destruct s; cbn [Re.search]; by rewrite H. Qed.

Lemma search_city_re_after pre s :
  Str.has_char pre "u" = false →
  Re.search Re.CITY_RE (pre +:+ s) = Re.search Re.CITY_RE s.
Proof.
  induction pre as [|x pre IH]; [done|]. cbn [Str.has_char String.append].
  case_decide as Hx; [done|]. intros Hpre. rewrite search_city_re_skip by done. by apply IH.
Qed.

Lemma no_later_homes post :
  Str.contains "-homes" post = false →
  ∀ a b, "-homes" +:+ post = a +:+ b → a ≠ "" → Str.startswith b "-homes" = false.
Proof.
  intros Hpost a b E Hne. destruct (Str.startswith b "-homes") eqn:Hs; [|done]. exfalso.
  apply startswith_spec in Hs as [b' ->].
  destruct a as [|x a]; [done|]. cbn in E. injection E as _ E.
  do 5 (destruct a as [|? a]; cbn in E; [discriminate E | injection E as _ E]).
  assert (Str.contains "-homes" post = true) as Hin
    by (apply contains_spec; by exists a, b').
  congruence.
Qed.

(** X15. On the URL of a city page as [main] and the pagination block
    build it, ["https://www.utahrealestate.com/" + slug + "-homes" + rest],
    the city is the slug, whenever the slug is not empty and has no "/" and
    the rest has no further "-homes": a query string such as "?page=2"
    does not disturb it, and a slug that itself contains "-homes" is taken
    whole, the pattern reaching for the last "-homes". *)
Theorem city_of_a_city_page (slug rest : string) :
  slug ≠ "" → Str.has_char slug "/" = false → Str.contains "-homes" rest = false →
  search_city ("https://www.utahrealestate.com/" +:+ slug +:+ "-homes" +:+ rest) = slug.
Proof.
  intros Hne Hs Hrest. unfold search_city.
  change ("https://www.utahrealestate.com/" +:+ slug +:+ "-homes" +:+ rest)
    with ("https://www." +:+ "utahrealestate.com/" +:+ slug +:+ "-homes" +:+ rest).
  rewrite search_city_re_after by done.
  rewrite (search_here _ _ (Some slug)); [done|].
  apply match_here_city; [done..|].
  intros a b E Ha _. by apply (no_later_homes rest Hrest a b).
Qed.

Lemma city_of_a_city_page_witness :
  search_city "https://www.utahrealestate.com/salt-lake-city-homes?page=2" = "salt-lake-city"
  ∧ search_city "https://www.utahrealestate.com/new-homes-homes" = "new-homes".
Proof.
  split.
  - apply (city_of_a_city_page "salt-lake-city" "?page=2"); [discriminate | reflexivity..].
  - apply (city_of_a_city_page "new-homes" ""); [discriminate | reflexivity..].
Defined.

(** ** How far the number of garages reaches *)

Lemma search_match_here r s m :
  Re.search r s = Some m → ∃ pre rest, s = pre +:+ rest ∧ Re.match_here r rest = Some m.
Proof.
  induction s as [|c s IH]; cbn [Re.search].
  - destruct (Re.match_here r "") eqn:E; [|done]. intros [= <-]. by exists "", "".
  - destruct (Re.match_here r (String c s)) eqn:E.
    + intros [= <-]. by exists "", (String c s).
    + intros (pre & rest & -> & H)%IH. by exists (String c pre), rest.
Qed.








(** ** The unit of the lot size *)

Section UnitOfTheLot.
Context {R : Type}.
Implicit Types (k : string → option string → option R).

Lemma run_alt fuel r1 r2 s g k :
  Re.run (S fuel) (Re.Alt r1 r2) s g k
  = match Re.run fuel r1 s g k with
    | Some x => Some x
    | None => Re.run fuel r2 s g k
    end.
Proof. done. Qed.

Lemma run_lit_i_fuel fuel p s g k x :
  Re.run fuel (Re.lit_i p) s g k = Some x → String.length p < fuel.
Proof.
  revert fuel s. induction p as [|a p IH]; intros fuel s.
  - destruct fuel; [done|]. cbn. lia.
  - destruct fuel as [|[|fuel]]; [done..|]. cbn [Re.lit_i String.length].
    rewrite run_seq. unfold Re.char_i at 1. destruct s as [|c s]; [done|].
    rewrite run_chr. case_bool_decide as Hb; [|done]. intros Hr%IH. lia.
Qed.

Lemma run_lit_i fuel p a rest g k :
  String.length p < fuel → Str.lower a = Str.lower p →
  Re.run fuel (Re.lit_i p) (a +:+ rest) g k = k rest g.
Proof.
  revert fuel a. induction p as [|c p IH]; intros fuel a Hf Ha.
  - apply lower_eq_nil in Ha as ->. destruct fuel; [lia|]. done.
  - destruct a as [|c' a]; [done|]. cbn [Str.lower] in Ha. injection Ha as Hc Ha.
    cbn [String.length] in Hf. destruct fuel as [|[|fuel]]; [lia..|].
    cbn [Re.lit_i String.append]. rewrite run_seq. unfold Re.char_i at 1. rewrite run_chr.
    rewrite bool_decide_eq_true_2 by done. apply IH; [lia | done].
Qed.

(** [ac|acre|sq\.? ft] with nothing after it in the pattern: the branch
    "acre" is never the one taken, "ac" comes first and is enough. *)
Lemma run_unit fuel s g (k : string → option R) x :
  (∀ t, is_Some (k t)) →
  Re.run fuel Re.UNITS s g (λ s1 _, k s1) = Some x →
  ∃ unit rest, s = unit +:+ rest
               ∧ (Re.matches (Re.lit_i "ac") unit ∨ Re.matches Re.SQ_FT unit)
               ∧ k rest = Some x.
Proof.
  intros Hk. unfold Re.UNITS. destruct fuel as [|fuel]; [done|]. rewrite run_alt.
  destruct (Re.run fuel (Re.lit_i "ac") s g _) as [y|] eqn:EA.
  { intros [= ->]. apply run_sound in EA as (unit & rest & _ & -> & Hu & Hx).
    exists unit, rest. split; [done|]. split; [by left | done]. }
  destruct fuel as [|fuel]; [done|]. rewrite run_alt.
  destruct (Re.run fuel (Re.lit_i "acre") s g _) as [y|] eqn:EB.
  { exfalso. pose proof (run_lit_i_fuel _ _ _ _ _ _ EB) as Hfuel. cbn in Hfuel.
    apply run_sound in EB as (unit & rest & _ & -> & Hu & _). apply matches_lit_i in Hu.
    destruct unit as [|c1 [|c2 unit]]; [done..|]. cbn in Hu. injection Hu as H1 H2 _.
    change (String c1 (String c2 unit) +:+ rest)
      with (String c1 (String c2 "") +:+ (unit +:+ rest)) in EA.
    rewrite run_lit_i in EA; [|cbn; lia|cbn; by rewrite H1, H2].
    destruct (Hk (unit +:+ rest)) as [z Hz]. congruence. }
  intros (unit & rest & _ & -> & Hu & Hx)%run_sound. exists unit, rest.
  split; [done|]. split; [by right | done].
Qed.
End UnitOfTheLot.

Lemma unit_is_not_acre unit :
  Re.matches (Re.lit_i "ac") unit ∨ Re.matches Re.SQ_FT unit →
  ¬ Re.matches (Re.lit_i "acre") unit.
Proof.
  intros Hu Hacre%matches_lit_i. destruct Hu as [Hu%matches_lit_i|Hu].
  { rewrite Hu in Hacre. discriminate. }
  unfold Re.SQ_FT in Hu.
  apply matches_seq_inv in Hu as (sq & u & -> & Hsq & Hu).
  apply matches_lit_i in Hsq. rewrite lower_app, Hsq in Hacre. done.
Qed.

Lemma match_here_LOT_RE s m :
  Re.match_here Re.LOT_RE s = Some m →
  ∃ word gap number blanks unit rest,
    s = word +:+ gap +:+ number +:+ blanks +:+ unit +:+ rest
    ∧ m = Some (number +:+ blanks +:+ unit)
    ∧ Re.matches (Re.lit_i "Lot") word
    ∧ all_chars Re.not_digit gap = true
    ∧ number ≠ ""
    ∧ all_chars (λ c, Str.isdigit c || Str.has_char ".," c) number = true
    ∧ all_chars Str.isspace blanks = true
    ∧ (Re.matches (Re.lit_i "ac") unit ∨ Re.matches Re.SQ_FT unit)
    ∧ ¬ Re.matches (Re.lit_i "acre") unit.
Proof.
  unfold Re.match_here. generalize (Re.need Re.LOT_RE (String.length s)). intros fuel.
  destruct fuel as [|fuel]; [done|]. unfold Re.LOT_RE. rewrite run_seq.
  intros (word & s2 & g1 & -> & Hword & H)%run_sound.
  destruct fuel as [|fuel]; [done|]. rewrite run_seq in H.
  apply run_sound in H as (gap & s4 & g2 & -> & Hgap & H).
  destruct fuel as [|fuel]; [done|]. rewrite run_group in H.
  destruct fuel as [|fuel]; [done|]. rewrite run_seq in H.
  apply run_sound in H as (number & s6 & g3 & -> & Hnumber & H).
  destruct fuel as [|fuel]; [done|]. rewrite run_seq in H.
  apply run_sound in H as (blanks & s8 & g4 & -> & Hblanks & H).
  apply (run_unit _ _ _
           (λ s1, Some (Some (Re.consumed (number +:+ blanks +:+ s8) s1)))) in H
    as (unit & rest & -> & Hunit & Hm); [|intros; by eexists].
  injection Hm as <-.
  exists word, gap, number, blanks, unit, rest. split; [done|]. split.
  { f_equal.
    replace (number +:+ blanks +:+ unit +:+ rest)
      with ((number +:+ blanks +:+ unit) +:+ rest) by (by rewrite !sapp_assoc).
    apply consumed_app. }
  apply matches_star_chars in Hgap, Hblanks.
  apply matches_plus_chars in Hnumber as [Hne Hnumber].
  pose proof (unit_is_not_acre unit Hunit). done.
Qed.

(** X17. The unit of a [lot_size] is never one that [acre] matches: of
    the alternatives [ac|acre|sq\.? ft] the first one that fits ends the
    match, and where [acre] fits [ac] does.  A lot size that is not empty
    is, as it stands in the page source after a word that [Lot] matches
    under [re.I] and a stretch of characters of the class [[^0-9]], a
    number, white space, and a unit that [ac] or [sq\.? ft] matches under
    [re.I]; "0.25 acres" gives "0.25 ac". *)
Theorem lot_size_never_says_acre (request : Request) (page : Page) (v : string) :
  extract_detail request page !! "lot_size" = Some v → v ≠ "" →
  ∃ pre word gap number blanks unit rest,
    content page = pre +:+ word +:+ gap +:+ number +:+ blanks +:+ unit +:+ rest
    ∧ v = number +:+ blanks +:+ unit
    ∧ Re.matches (Re.lit_i "Lot") word
    ∧ all_chars Re.not_digit gap = true
    ∧ number ≠ ""
    ∧ all_chars (λ c, Str.isdigit c || Str.has_char ".," c) number = true
    ∧ all_chars Str.isspace blanks = true
    ∧ (Re.matches (Re.lit_i "ac") unit ∨ Re.matches Re.SQ_FT unit)
    ∧ ¬ Re.matches (Re.lit_i "acre") unit.
Proof.
  change (extract_detail request page !! "lot_size")
    with (Some (search_or_empty Re.LOT_RE (content page))).
  intros [= <-]. unfold search_or_empty.
  destruct (Re.search Re.LOT_RE (content page)) as [m|] eqn:E; [|done]. intros _.
  apply search_match_here in E as (pre & s & -> & H).
  apply match_here_LOT_RE in H
    as (word & gap & number & blanks & unit & rest & -> & -> & H).
  cbn [Re.group1 default from_option id]. by exists pre, word, gap, number, blanks, unit, rest.
Qed.

Lemma lot_size_never_says_acre_witness :
  extract_detail (new_request "" None ∅) (detail_page [] "Lot size: 0.25 acres") !! "lot_size"
  = Some "0.25 ac"
  ∧ ∃ pre word gap number blanks unit rest,
      "Lot size: 0.25 acres" = pre +:+ word +:+ gap +:+ number +:+ blanks +:+ unit +:+ rest
      ∧ "0.25 ac" = number +:+ blanks +:+ unit
      ∧ Re.matches (Re.lit_i "Lot") word
      ∧ all_chars Re.not_digit gap = true
      ∧ number ≠ ""
      ∧ all_chars (λ c, Str.isdigit c || Str.has_char ".," c) number = true
      ∧ all_chars Str.isspace blanks = true
      ∧ (Re.matches (Re.lit_i "ac") unit ∨ Re.matches Re.SQ_FT unit)
      ∧ ¬ Re.matches (Re.lit_i "acre") unit.
Proof.
  split; [reflexivity|].
  apply (lot_size_never_says_acre (new_request "" None ∅)
           (detail_page [] "Lot size: 0.25 acres") "0.25 ac");
    [reflexivity | discriminate].
Defined.

(** ** Where the year stands *)

Lemma match_here_YEAR_RE s m :
  Re.match_here Re.YEAR_RE s = Some m →
  ∃ year blanks built gap d rest,
    s = year +:+ blanks +:+ built +:+ gap +:+ d +:+ rest
    ∧ m = Some d
    ∧ Re.matches (Re.lit_i "Year") year
    ∧ all_chars Str.isspace blanks = true
    ∧ Re.matches (Re.lit_i "Built") built
    ∧ all_chars Re.not_digit gap = true
    ∧ String.length d = 4 ∧ all_chars Str.isdigit d = true.
Proof.
  unfold Re.match_here. generalize (Re.need Re.YEAR_RE (String.length s)). intros fuel.
  destruct fuel as [|fuel]; [done|]. unfold Re.YEAR_RE. rewrite run_seq.
  intros (year & s2 & g1 & -> & Hyear & H)%run_sound.
  destruct fuel as [|fuel]; [done|]. rewrite run_seq in H.
  apply run_sound in H as (blanks & s3 & g2 & -> & Hblanks & H).
  destruct fuel as [|fuel]; [done|]. rewrite run_seq in H.
  apply run_sound in H as (built & s4 & g3 & -> & Hbuilt & H).
  destruct fuel as [|fuel]; [done|]. rewrite run_seq in H.
  apply run_sound in H as (gap & s5 & g4 & -> & Hgap & H).
  destruct fuel as [|fuel]; [done|]. rewrite run_group in H.
  apply run_sound in H as (d & rest & g5 & -> & Hd & H). injection H as <-.
  exists year, blanks, built, gap, d, rest. split; [done|].
  split; [by rewrite consumed_app|].
  apply matches_star_chars in Hblanks, Hgap.
  apply matches_times_class in Hd as [Hl Hd]. done.
Qed.

(** X18. A [year_built] that is not empty is four characters of the class
    [\d] after the words: in the page source it comes after a word that
    [Year] matches under [re.I], white space of the class [\s] or none, a
    word that [Built] matches under [re.I] and a stretch, of any length, of
    characters of the class [[^0-9]].  What follows the four characters is
    not looked at. *)
Theorem year_built_follows_the_words (request : Request) (page : Page) (v : string) :
  extract_detail request page !! "year_built" = Some v → v ≠ "" →
  ∃ pre year blanks built gap rest,
    content page = pre +:+ year +:+ blanks +:+ built +:+ gap +:+ v +:+ rest
    ∧ Re.matches (Re.lit_i "Year") year
    ∧ all_chars Str.isspace blanks = true
    ∧ Re.matches (Re.lit_i "Built") built
    ∧ all_chars Re.not_digit gap = true
    ∧ String.length v = 4 ∧ all_chars Str.isdigit v = true.
Proof.
  change (extract_detail request page !! "year_built")
    with (Some (search_or_empty Re.YEAR_RE (content page))).
  intros [= <-]. unfold search_or_empty.
  destruct (Re.search Re.YEAR_RE (content page)) as [m|] eqn:E; [|done]. intros _.
  apply search_match_here in E as (pre & s & -> & H).
  apply match_here_YEAR_RE in H as (year & blanks & built & gap & d & rest & -> & -> & H).
  cbn [Re.group1 default from_option id]. by exists pre, year, blanks, built, gap, rest.
Qed.

Lemma year_built_follows_the_words_witness :
  extract_detail (new_request "" None ∅)
    (detail_page [] "<b>YEAR  BUILT</b>: about 19875") !! "year_built" = Some "1987"
  ∧ ∃ pre year blanks built gap rest,
      "<b>YEAR  BUILT</b>: about 19875"
      = pre +:+ year +:+ blanks +:+ built +:+ gap +:+ "1987" +:+ rest
      ∧ Re.matches (Re.lit_i "Year") year
      ∧ all_chars Str.isspace blanks = true
      ∧ Re.matches (Re.lit_i "Built") built
      ∧ all_chars Re.not_digit gap = true
      ∧ String.length "1987" = 4 ∧ all_chars Str.isdigit "1987" = true.
Proof.
  split; [reflexivity|].
  apply (year_built_follows_the_words (new_request "" None ∅)
           (detail_page [] "<b>YEAR  BUILT</b>: about 19875") "1987");
    [reflexivity | discriminate].
Defined.

(** ** The counts of the summary *)

Lemma without_char_length c s : String.length (Str.without_char c s) ≤ String.length s.
Proof. induction s as [|a s IH]; cbn; [done|]. case_decide; cbn; lia. Qed.

(** X19. [beds], [baths] and [sqft] are the text of the second, third and
    fourth summary element with every comma taken out and nothing else
    done to it: the field has no comma, it is the text itself when that has
    none, and it is never longer than the text. *)
Theorem counts_lose_only_commas (request : Request) (page : Page) (key selector : string) :
  (key, selector) ∈ [ ("beds", ".prop-details-overview li:nth-of-type(2) span");
                      ("baths", ".prop-details-overview li:nth-of-type(3) span");
                      ("sqft", ".prop-details-overview li:nth-of-type(4) span") ] →
  ∃ v, extract_detail request page !! key = Some v
       ∧ v = Str.replace "," "" (safe_text page selector)
       ∧ v = Str.without_char "," (safe_text page selector)
       ∧ Str.has_char v "," = false
       ∧ (Str.has_char (safe_text page selector) "," = false → v = safe_text page selector)
       ∧ String.length v ≤ String.length (safe_text page selector).
Proof.
  intros Hin. exists (Str.without_char "," (safe_text page selector)).
  split; [|split; [by rewrite replace_char_empty|split; [done|split; [|split]]]].
  - apply list_elem_of_In in Hin. cbn in Hin.
    destruct Hin as [[= <- <-] | [[= <- <-] | [[= <- <-] | []]]].
    + apply data_beds.
    + apply data_baths.
    + apply data_sqft.
  - apply without_char_has.
  - apply without_char_id.
  - apply without_char_length.
Qed.

Lemma counts_lose_only_commas_witness :
  extract_detail (new_request "" None ∅)
    (detail_page [(".prop-details-overview li:nth-of-type(4) span", " 12,345,678 ")] "")
    !! "sqft" = Some "12345678".
Proof.
  destruct (counts_lose_only_commas (new_request "" None ∅)
              (detail_page [(".prop-details-overview li:nth-of-type(4) span", " 12,345,678 ")] "")
              "sqft" ".prop-details-overview li:nth-of-type(4) span")
    as (v & Hv & Hr & _).
  - apply (bool_decide_eq_true_1 (_ ∈ _)). vm_compute. reflexivity.
  - rewrite Hv, Hr. reflexivity.
Defined.

(** ** What is written was claimed *)

Lemma card_ids_not_empty cs : "" ∉ card_ids cs.
Proof.
  unfold card_ids. intros (card & _ & H)%list_elem_of_omap.
  destruct (listno card) as [[mls|]|]; [|done..].
  case_bool_decide as Hm; [done|]. by injection H as ->.
Qed.

Lemma no_empty_id_step m c c' :
  step m c = Some c' → "" ∉ visited_mls c → "" ∉ visited_mls c'.
Proof.
  intros Hs Hc. destruct (step_history m c c' Hs)
    as [(-> & _) | [(j & h & card & rest & _ & _ & _ & -> & _)
                   | [(j & h & out & _ & _ & _ & _ & -> & _) | (j & h & _ & _ & -> & _)]]];
    [done| |done..].
  rewrite claim_card_fst. intros [?|Hin%elem_of_list_to_set]%elem_of_union; [done|].
  by apply card_ids_not_empty in Hin.
Qed.

Lemma no_empty_id_run moves c c' :
  run moves c = Some c' → "" ∉ visited_mls c → "" ∉ visited_mls c'.
Proof.
  revert c. induction moves as [|m moves IH]; intros c; cbn [run]; [by intros [= <-]|].
  destruct (step m c) as [c1|] eqn:Hs; [|discriminate]. cbn [mbind option_bind].
  intros Hr Hc. apply (IH c1 Hr). by apply (no_empty_id_step m c).
Qed.

(** X20. In a crawl over pages whose card identifiers have no "/" and
    whose next link does not lead under "/listing/", every [mls] in the CSV
    file is an identifier that was read from a card and put into
    [visited_mls]: it is not empty, has no "/", and no request for its
    detail page is waiting any more, so a retry cannot write it again. *)
Theorem written_rows_were_claimed (moves : list Move) (c : Crawl) :
  run moves main_init = Some c → forallb plain_move moves = true →
  ∀ mls, mls ∈ written c →
    mls ∈ visited_mls c ∧ mls ≠ "" ∧ Str.has_char mls "/" = false
    ∧ detail_url mls ∉ detail_urls (queue c).
Proof.
  intros Hr Hp mls Hin.
  destruct (sink_ok_run moves main_init c Hr Hp sink_ok_init) as [[Hnd Hall] _].
  assert (detail_url mls ∈ detail_url <$> written c) as Hu by (by apply list_elem_of_fmap_2).
  destruct (Hall (detail_url mls)) as (m & Hm%detail_url_inj & Hv & Hs);
    [apply elem_of_app; right; apply elem_of_app; by right|]. subst m.
  split; [done|]. split; [|split; [done|]].
  - intros ->. by apply (no_empty_id_run moves main_init c Hr).
  - apply NoDup_app in Hnd as (_ & Hdis & _). intros Hq. apply (Hdis _ Hq).
    apply elem_of_app. by right.
Qed.

Lemma written_rows_were_claimed_witness :
  "2084421" ∈ visited_mls (after plain_moves)
  ∧ detail_url "2084421" ∉ detail_urls (queue (after plain_moves)).
Proof.
  destruct (written_rows_were_claimed plain_moves (after plain_moves) run_after_plain
              eq_refl "2084421") as (Hv & _ & _ & Hq).
  - apply (bool_decide_eq_true_1 (_ ∈ _)). vm_compute. reflexivity.
  - split; [exact Hv | exact Hq].
Defined.

(** ** A card that gives nothing *)

Lemma claim_cards_app city cs1 cs2 visited :
  claim_cards city (cs1 ++ cs2) visited
  = ((claim_cards city cs2 (claim_cards city cs1 visited).1).1,
     (claim_cards city cs1 visited).2 ++ (claim_cards city cs2 (claim_cards city cs1 visited).1).2).
Proof.
  revert visited. induction cs1 as [|c cs1 IH]; intros visited.
  - cbn [app]. rewrite claim_cards_nil. cbn [fst snd app]. by destruct (claim_cards city cs2 visited).
  - cbn [app]. rewrite !claim_cards_cons, IH. cbn [fst snd]. by rewrite app_assoc.
Qed.

(** X21. A card gives nothing and disturbs nothing when reading its
    [listno] raises, or gives no value, the empty string, or an identifier
    that is in [visited_mls] already or stands on an earlier card of the
    page: [extract_search_results] then leaves the set and adds the
    requests exactly as if the card were not on the page. *)
Theorem a_card_that_gives_nothing (request : Request) (page : Page) (visited : gset string)
    (before after_it : list Card) (card : Card) :
  cards page = before ++ card :: after_it →
  (∀ mls, listno card = Reply (Some mls) →
          mls = "" ∨ mls ∈ visited ∨ mls ∈ card_ids before) →
  extract_search_results request page visited
  = extract_search_results request
      {| cards_appear := cards_appear page; cards := before ++ after_it;
         next_btn := next_btn page; next_accepted := next_accepted page;
         query_selector := query_selector page; content := content page |} visited.
Proof.
  intros Hcards Hcard. unfold extract_search_results, next_page, pagination.
  cbn [cards_appear cards next_btn next_accepted]. destruct (cards_appear page); [|done].
  rewrite Hcards, !claim_cards_app, claim_cards_cons.
  assert (claim_card (search_city (url request)) card
            (claim_cards (search_city (url request)) before visited).1
          = ((claim_cards (search_city (url request)) before visited).1, [])) as ->; [|done].
  destruct (claim_card_cases (search_city (url request)) card
              (claim_cards (search_city (url request)) before visited).1)
    as [Hc | (m & Hl & Hne & Hm & _)]; [done|].
  exfalso. apply Hm. rewrite claim_cards_fst.
  destruct (Hcard m Hl) as [? | [? | ?]]; [done | sets | sets].
Qed.

Lemma a_card_that_gives_nothing_witness :
  extract_search_results (new_request "https://www.utahrealestate.com/draper-homes" None ∅)
    (results_page true ["2084421"; "2084421"; "7"] None) ∅
  = extract_search_results (new_request "https://www.utahrealestate.com/draper-homes" None ∅)
      (results_page true ["2084421"; "7"] None) ∅.
Proof.
  apply (a_card_that_gives_nothing
           (new_request "https://www.utahrealestate.com/draper-homes" None ∅)
           (results_page true ["2084421"; "2084421"; "7"] None) ∅
           (cards (results_page true ["2084421"] None))
           (cards (results_page true ["7"] None))
           {| listno := Reply (Some "2084421"); add_requests_ok := true |}).
  - reflexivity.
  - intros mls [= <-]. right. right. apply (bool_decide_eq_true_1 (_ ∈ _)). vm_compute. reflexivity.
Defined.
